(** * ExpediteAI: screenshot question answerer

    A shallow embedding of the Python sources

      - [screenshot_handler.py]  (the image source reader),
      - [ai_providers.py]        (the three vision backend adapters and
                                  their factory),
      - [config.py]              (configuration constants and look-ups),
      - [main.py]                (the directory watch handler, the
                                  pipeline coordinator and the entry
                                  point),
      - [ui_overlay.py]          (the Tk answer modal and its timers),

    followed by the properties of the specification, stated over these
    definitions.

    Conventions of the embedding.

    - A Python [str] is a Rocq [string].  [str.lower] is modelled on the
      ASCII letters; the characters outside ASCII are left alone.  No
      keyword and no extension of this program contains a letter that a
      non-ASCII character lower-cases to in a matching position, so the
      membership tests below are the ones Python performs.
    - [None] is [None]; a value that may be [None] is an [option].
    - Code with effects (printing, sleeping, calling the vendor, asking
      the overlay to show a text) returns its value together with the
      list of effects it performed, in program order.
    - What lives outside the repository (the file system, the vendor
      SDKs, the process environment) is an explicit argument.
    - The command line reaches [main] as the sequence of options that
      [argparse] reads off [sys.argv]; how the library spells an option
      (short or long form, abbreviation, [--option=value]) is not
      modelled, what the parser of [main] does with each option is. *)

From Stdlib Require Import String Ascii List ZArith Bool Arith Lia.
From Stdlib Require Import Permutation.
Import ListNotations.

Open Scope list_scope.
Open Scope string_scope.

(* ================================================================== *)
(** * Python strings *)
(* ================================================================== *)

Module PyStr.

(** ['A' <= c <= 'Z']. *)
Definition is_upper (c : ascii) : bool :=
  (65 <=? nat_of_ascii c)%nat && (nat_of_ascii c <=? 90)%nat.

Definition lower_char (c : ascii) : ascii :=
  if is_upper c then ascii_of_nat (nat_of_ascii c + 32) else c.

(** [s.lower()]. *)
Fixpoint lower (s : string) : string :=
  match s with
  | EmptyString => EmptyString
  | String c s' => String (lower_char c) (lower s')
  end.

(** [k in s] for two strings: [k] occurs in [s] as a substring. *)
Fixpoint contains (k s : string) : bool :=
  prefix k s ||
  match s with
  | EmptyString => false
  | String _ s' => contains k s'
  end.

(** [x in xs] for a list, a set or a tuple of strings. *)
Definition mem (x : string) (xs : list string) : bool :=
  existsb (String.eqb x) xs.

(** [any(k in s for k in ks)]. *)
Definition any_in (ks : list string) (s : string) : bool :=
  existsb (fun k => contains k s) ks.

(** [s.rfind(c)], with [None] for Python's [-1]. *)
Fixpoint rfind (c : ascii) (s : string) : option nat :=
  match s with
  | EmptyString => None
  | String a s' =>
      match rfind c s' with
      | Some i => Some (S i)
      | None => if Ascii.eqb a c then Some 0 else None
      end
  end.

(** [s[i:]]. *)
Definition drop (i : nat) (s : string) : string :=
  substring i (String.length s - i) s.

(** [s[:i]]. *)
Definition take (i : nat) (s : string) : string :=
  substring 0 i s.

(** Truthiness of a string that may be [None]: [if x:]. *)
Definition truthy (x : option string) : bool :=
  match x with
  | Some s => negb (String.eqb s "")
  | None => false
  end.

(** The line feed of ["\n"], and the double quote. *)
Definition nl : string := String (ascii_of_nat 10) EmptyString.
Definition dq : string := String (ascii_of_nat 34) EmptyString.

(** The string behind a truthy [x]: [None] for [None] and for the
    empty string. *)
Definition nonempty (x : option string) : option string :=
  match x with
  | Some s => if String.eqb s "" then None else Some s
  | None => None
  end.

(** [x == y] for two strings that may be [None]. *)
Definition option_eqb_string (x y : option string) : bool :=
  match x, y with
  | Some a, Some b => String.eqb a b
  | None, None => true
  | _, _ => false
  end.

(** [x or d] for a string that may be [None]. *)
Definition or_else (x : option string) (d : string) : string :=
  match x with
  | Some s => if String.eqb s "" then d else s
  | None => d
  end.

(** Outcome of code that may raise: its value, or [str(e)] of the
    exception. *)
Inductive attempt (A : Type) : Type :=
| Returned (a : A)
| Raised (err : string).
Arguments Returned {A} a.
Arguments Raised {A} err.

End PyStr.

(* ================================================================== *)
(** * pathlib, as far as the program uses it *)
(* ================================================================== *)

Module Pathlib.

(** A [Path] keeps its parsed parts; the program only ever looks at
    the final component and at the whole string. *)
Record Path : Type := mkPath { parent : string; name : string }.

(** The program is a Windows program (its screenshot directory is a
    drive path and the overlay calls [user32]): both slashes separate. *)
Definition is_sep (c : ascii) : bool :=
  Ascii.eqb c "/"%char || Ascii.eqb c "\"%char.

(** Index of the last separator of [s]. *)
Fixpoint rfind_sep (s : string) : option nat :=
  match s with
  | EmptyString => None
  | String a s' =>
      match rfind_sep s' with
      | Some i => Some (S i)
      | None => if is_sep a then Some 0 else None
      end
  end.

(** [Path(s)]: the final component is what follows the last separator.
    Paths as the watcher reports them (no trailing separator). *)
Definition of_str (s : string) : Path :=
  match rfind_sep s with
  | Some i => mkPath (PyStr.take i s) (PyStr.drop (S i) s)
  | None => mkPath "" s
  end.

(** [str(p)]. *)
Definition str (p : Path) : string :=
  match parent p, name p with
  | EmptyString, EmptyString => "."
  | EmptyString, n => n
  | d, n => d ++ "\" ++ n
  end.

(** [d / n] for a directory given as a string. *)
Definition joinpath (d : string) (n : string) : Path := mkPath d n.

(** [p.suffix]: the last dot of the final component and what follows,
    unless that dot comes first or last. *)
Definition suffix (p : Path) : string :=
  let n := name p in
  match PyStr.rfind "."%char n with
  | Some i =>
      if (0 <? i)%nat && (i <? String.length n - 1)%nat
      then PyStr.drop i n
      else ""
  | None => ""
  end.

End Pathlib.

(* ================================================================== *)
(** * screenshot_handler.py *)
(* ================================================================== *)

Module ScreenshotHandlerPy.

Import PyStr Pathlib.

(** What [f.stat()] gives: the modification time, or the [OSError]
    it raises (for instance because the file has just been removed).
    Timestamps are compared only, so an integer clock stands for them. *)
Inductive stat_result : Type :=
| StatOk (st_mtime : Z)
| StatError (err : string).

(** One entry of a directory listing: its name, whether [is_file()]
    holds, and the result of [stat()]. *)
Record dirent : Type := mkDirent {
  d_name : string;
  d_is_file : bool;
  d_stat : stat_result
}.

(** What the reader can find at a directory path. *)
Inductive dir_state : Type :=
| DirAbsent                        (* [exists()] is false *)
| DirUnreadable (err : string)     (* [iterdir()] raises *)
| DirEntries (l : list dirent).    (* the entries directly below *)

Definition image_extensions : list string :=
  [".png"; ".jpg"; ".jpeg"; ".bmp"; ".gif"; ".webp"].

(** [f.suffix.lower() in image_extensions]. *)
Definition has_image_extension (f : Path) : bool :=
  mem (lower (suffix f)) image_extensions.

(** The test of the comprehension, for the entry [e] of the directory
    [d]: [f.is_file() and f.suffix.lower() in image_extensions]. *)
Definition is_image_file (d : string) (e : dirent) : bool :=
  d_is_file e && has_image_extension (joinpath d (d_name e)).

Definition image_files (d : string) (l : list dirent) : list dirent :=
  filter (is_image_file d) l.

(** [max(xs, key=...)] on a non-empty list whose keys are already
    computed: the first element bearing the greatest key. *)
Fixpoint max_by_key (best : dirent * Z) (rest : list (dirent * Z))
  : dirent * Z :=
  match rest with
  | [] => best
  | x :: rest' =>
      if (snd best <? snd x)%Z then max_by_key x rest'
      else max_by_key best rest'
  end.

(** The keys [f.stat().st_mtime], in list order; the first [stat] that
    raises ends the computation. *)
Fixpoint stat_all (l : list dirent) : attempt (list (dirent * Z)) :=
  match l with
  | [] => Returned []
  | e :: l' =>
      match d_stat e with
      | StatError err => Raised err
      | StatOk t =>
          match stat_all l' with
          | Raised err => Raised err
          | Returned r => Returned ((e, t) :: r)
          end
      end
  end.

(** The body of the [try] of [get_latest_screenshot].  ([stat_all]
    keeps the length of its list, so its result is empty only for the
    empty list, which the test [if not image_files] has excluded.) *)
Definition get_latest_screenshot_body (screenshot_dir : string)
  (st : dir_state) : attempt (option string) :=
  match st with
  | DirAbsent => Returned None
  | DirUnreadable err => Raised err
  | DirEntries l =>
      match image_files screenshot_dir l with
      | [] => Returned None
      | files =>
          match stat_all files with
          | Raised err => Raised err
          | Returned [] => Returned None
          | Returned (k :: ks) =>
              Returned
                (Some (str (joinpath screenshot_dir
                                     (d_name (fst (max_by_key k ks))))))
          end
      end
  end.

(** [get_latest_screenshot]: the body, with [except Exception] turning
    a raise into a printed line and [None].  The second component is
    what was printed. *)
Definition get_latest_screenshot (screenshot_dir : string)
  (st : dir_state) : option string * list string :=
  match get_latest_screenshot_body screenshot_dir st with
  | Returned r => (r, [])
  | Raised err => (None, ["Error getting latest screenshot: " ++ err])
  end.

(** The allow-list without the dots, for statements about names. *)
Definition bare_extensions : list string :=
  ["png"; "jpg"; "jpeg"; "bmp"; "gif"; "webp"].

End ScreenshotHandlerPy.

(* ================================================================== *)
(** * Effects *)
(* ================================================================== *)

Module Trace.

(** What the program does to the outside, as far as the specification
    speaks of it. *)
(** Why [argparse] refuses a command line. *)
Inductive parser_error : Type :=
| InvalidChoice (value : string)
| ExpectedOneArgument (option_strings : string)
| UnrecognizedArguments (arguments : list string).

Inductive effect : Type :=
| Print (line : string)                      (* [print(line)] *)
| Sleep (ms : Z)                             (* [time.sleep(ms / 1000)] *)
| ProcessImage (image_path prompt : string)  (* [provider.process_image] *)
| ShowAnswer (answer_text : string) (duration : Z) (is_warning : bool)
                                             (* [modal.show_answer] *)
| Dispatch (file_path : string)              (* [on_created] calls
                                                [app.process_screenshot] *)
| StartObserver (directory : string)         (* [observer.start()] *)
| ParserHelp                                 (* [argparse] prints the help *)
| ParserError (reason : parser_error).       (* [parser.error(...)]: usage
                                                and message on stderr *)

(** A computation with its effects, in program order. *)
Definition M (A : Type) : Type := (A * list effect)%type.

Definition ret {A : Type} (a : A) : M A := (a, []).

Definition bind {A B : Type} (m : M A) (k : A -> M B) : M B :=
  let '(a, l1) := m in
  let '(b, l2) := k a in
  (b, (l1 ++ l2)%list).

Definition tell (e : effect) : M unit := (tt, [e]).

Definition print (line : string) : M unit := tell (Print line).

Definition effects_of {A : Type} (m : M A) : list effect := snd m.
Definition value_of {A : Type} (m : M A) : A := fst m.

Definition is_process_image (e : effect) : bool :=
  match e with ProcessImage _ _ => true | _ => false end.

Definition is_show_answer (e : effect) : bool :=
  match e with ShowAnswer _ _ _ => true | _ => false end.

Definition is_dispatch (e : effect) : bool :=
  match e with Dispatch _ => true | _ => false end.

(** The calls of the backend, and the calls of the overlay, of a trace. *)
Definition backend_calls (l : list effect) : list effect :=
  filter is_process_image l.

Definition overlay_calls (l : list effect) : list effect :=
  filter is_show_answer l.

End Trace.

Declare Scope eff_scope.
Delimit Scope eff_scope with eff.
Notation "x <- m ;; k" := (Trace.bind m (fun x => k))
  (at level 61, m at next level, right associativity) : eff_scope.
Notation "m ;;; k" := (Trace.bind m (fun _ => k))
  (at level 61, right associativity) : eff_scope.

(* ================================================================== *)
(** * ai_providers.py *)
(* ================================================================== *)

Module AiProviders.

Import PyStr Trace.
Local Open Scope eff_scope.

(** The values an error attribute can hold. *)
Inductive pyval : Type :=
| PyNone
| PyInt (n : Z)
| PyStr (s : string).

(** An exception, as the handlers look at it: [type(e).__name__],
    [str(e)], and the attributes [status_code] and [code], each [None]
    when [hasattr] is false. *)
Record exn : Type := mkExn {
  exn_type_name : string;
  exn_str : string;
  exn_status_code : option pyval;
  exn_code : option pyval
}.

(** What the body of the [try] of a [process_image] comes to: the value
    of its [return] expression (the stripped first text of the reply),
    or the exception raised on the way (opening the image, encoding it,
    the vendor call, reading the reply). *)
Inductive vendor_call : Type :=
| Responds (text : string)
| Fails (e : exn).

(** The three adapters, with what their constructors keep. *)
Inductive AIProvider : Type :=
| GeminiProvider (api_key model : string)
| OpenAIProvider (api_key model_name : string)
| AnthropicProvider (api_key model_name : string).

(** [error_code in [402, 429]]. *)
Definition pyval_eq_int (v : pyval) (n : Z) : bool :=
  match v with
  | PyInt m => Z.eqb m n
  | _ => false
  end.

Definition pyval_in (v : pyval) (l : list Z) : bool :=
  existsb (pyval_eq_int v) l.

Definition gemini_billing_keywords : list string :=
  ["quota"; "billing"; "payment"; "credit"; "insufficient";
   "exceeded"; "limit"; "subscription"; "account"].

Definition openai_billing_keywords : list string :=
  ["insufficient_quota"; "billing"; "payment"; "credit";
   "insufficient"; "exceeded"; "limit"; "subscription";
   "account"; "rate_limit"; "quota"; "402"; "429"].

Definition anthropic_billing_keywords : list string :=
  ["quota"; "billing"; "payment"; "credit"; "insufficient";
   "exceeded"; "limit"; "subscription"; "account"; "rate_limit"].

Definition gemini_billing_message : string :=
  "⚠️ Low credits/billing issue detected." ++ nl ++
  "Please check your Gemini API billing.".

Definition openai_billing_message : string :=
  "⚠️ Low credits/billing issue detected." ++ nl ++
  "Please check your OpenAI API billing.".

Definition anthropic_billing_message : string :=
  "⚠️ Low credits/billing issue detected." ++ nl ++
  "Please check your Anthropic API billing.".

(** The result of [process_image]: [(response_text, error_message)]. *)
Definition result : Type := (option string * option string)%type.

(** [GeminiProvider.process_image]. *)
Definition gemini_process_image (call : vendor_call) : M result :=
  match call with
  | Responds text => ret (Some text, None)
  | Fails e =>
      let error_str := lower (exn_str e) in
      print ("Gemini API error: " ++ exn_str e) ;;;
      if any_in gemini_billing_keywords error_str
      then ret (None, Some gemini_billing_message)
      else ret (None, None)
  end.

(** The [error_code] that [OpenAIProvider.process_image] reads off the
    exception: [status_code] when the exception has it, else [code]
    when it has that, else [None]. *)
Definition openai_error_code (e : exn) : pyval :=
  match exn_status_code e with
  | Some v => v
  | None =>
      match exn_code e with
      | Some v => v
      | None => PyNone
      end
  end.

Definition openai_is_billing_error (e : exn) : bool :=
  let error_str := lower (exn_str e) in
  let error_type := lower (exn_type_name e) in
  let error_code := openai_error_code e in
  pyval_in error_code [402; 429]%Z
  || any_in openai_billing_keywords error_str
  || contains "quota" error_type
  || contains "billing" error_type.

(** [OpenAIProvider.process_image]. *)
Definition openai_process_image (call : vendor_call) : M result :=
  match call with
  | Responds text => ret (Some text, None)
  | Fails e =>
      print ("OpenAI API error: " ++ exn_str e) ;;;
      if openai_is_billing_error e
      then ret (None, Some openai_billing_message)
      else ret (None, None)
  end.

(** [AnthropicProvider.process_image]. *)
Definition anthropic_process_image (call : vendor_call) : M result :=
  match call with
  | Responds text => ret (Some text, None)
  | Fails e =>
      let error_str := lower (exn_str e) in
      print ("Anthropic API error: " ++ exn_str e) ;;;
      if any_in anthropic_billing_keywords error_str
      then ret (None, Some anthropic_billing_message)
      else ret (None, None)
  end.

(** [provider.process_image(image_path, prompt)], dispatched on the
    class of [provider]; [call] is what the vendor does with this
    request. *)
Definition process_image (self : AIProvider) (call : vendor_call)
  : M result :=
  match self with
  | GeminiProvider _ _ => gemini_process_image call
  | OpenAIProvider _ _ => openai_process_image call
  | AnthropicProvider _ _ => anthropic_process_image call
  end.

(** Names for what the three handlers have in common: the keyword list
    each adapter searches the lower-cased message for. *)
Definition billing_keywords (self : AIProvider) : list string :=
  match self with
  | GeminiProvider _ _ => gemini_billing_keywords
  | OpenAIProvider _ _ => openai_billing_keywords
  | AnthropicProvider _ _ => anthropic_billing_keywords
  end.

(** The warning each adapter returns. *)
Definition billing_message (self : AIProvider) : string :=
  match self with
  | GeminiProvider _ _ => gemini_billing_message
  | OpenAIProvider _ _ => openai_billing_message
  | AnthropicProvider _ _ => anthropic_billing_message
  end.

Definition is_openai (self : AIProvider) : bool :=
  match self with
  | OpenAIProvider _ _ => true
  | _ => false
  end.

(** The condition under which an adapter answers an exception with its
    billing warning, read off the three handlers. *)
Definition billing_detected (self : AIProvider) (e : exn) : bool :=
  match self with
  | OpenAIProvider _ _ => openai_is_billing_error e
  | _ => any_in (billing_keywords self) (lower (exn_str e))
  end.

(** What an adapter was built with. *)
Definition vendor_name (self : AIProvider) : string :=
  match self with
  | GeminiProvider _ _ => "gemini"
  | OpenAIProvider _ _ => "openai"
  | AnthropicProvider _ _ => "anthropic"
  end.

Definition provider_api_key (self : AIProvider) : string :=
  match self with
  | GeminiProvider k _ | OpenAIProvider k _ | AnthropicProvider k _ => k
  end.

Definition provider_model (self : AIProvider) : string :=
  match self with
  | GeminiProvider _ m | OpenAIProvider _ m | AnthropicProvider _ m => m
  end.

(** Which vendor packages could be imported. *)
Record packages : Type := mkPackages {
  genai_imported : bool;
  openai_imported : bool;
  anthropic_imported : bool
}.

(** The three constructors: each refuses to build without its package. *)
Definition new_GeminiProvider (pk : packages) (api_key model : string)
  : attempt AIProvider :=
  if genai_imported pk then Returned (GeminiProvider api_key model)
  else Raised ("google-generativeai package is required. " ++
               "Install with: pip install google-generativeai").

Definition new_OpenAIProvider (pk : packages) (api_key model : string)
  : attempt AIProvider :=
  if openai_imported pk then Returned (OpenAIProvider api_key model)
  else Raised "openai package is required. Install with: pip install openai".

Definition new_AnthropicProvider (pk : packages) (api_key model : string)
  : attempt AIProvider :=
  if anthropic_imported pk then Returned (AnthropicProvider api_key model)
  else Raised ("anthropic package is required. " ++
               "Install with: pip install anthropic").

(** [create_provider(provider_name, api_key, model)]. *)
Definition create_provider (pk : packages) (provider_name api_key : string)
  (model : option string) : attempt AIProvider :=
  let provider_name := lower provider_name in
  if String.eqb provider_name "gemini" then
    new_GeminiProvider pk api_key (or_else model "gemini-1.5-flash")
  else if String.eqb provider_name "openai" then
    new_OpenAIProvider pk api_key (or_else model "gpt-4o")
  else if String.eqb provider_name "anthropic" then
    new_AnthropicProvider pk api_key
      (or_else model "claude-3-5-sonnet-20241022")
  else Raised ("Unknown provider: " ++ provider_name).

End AiProviders.

(* ================================================================== *)
(** * config.py *)
(* ================================================================== *)

Module ConfigPy.

Import PyStr.

(** The process environment: [os.getenv(name)]. *)
Definition environ : Type := string -> option string.

(** [os.getenv(name, default)]. *)
Definition getenv_default (env : environ) (name default : string) : string :=
  match env name with
  | Some v => v
  | None => default
  end.

Definition SCREENSHOT_DIR : string := "C:\Users\janpa\Pictures\Screenshots".

Definition GEMINI_API_KEY (env : environ) : option string :=
  env "GEMINI_API_KEY".
Definition OPENAI_API_KEY (env : environ) : option string :=
  env "OPENAI_API_KEY".
Definition ANTHROPIC_API_KEY (env : environ) : option string :=
  env "ANTHROPIC_API_KEY".

Definition DEFAULT_PROVIDER (env : environ) : string :=
  lower (getenv_default env "DEFAULT_PROVIDER" "openai").

Definition GEMINI_MODEL (env : environ) : string :=
  getenv_default env "GEMINI_MODEL" "gemini-1.5-flash".
Definition OPENAI_MODEL (env : environ) : string :=
  getenv_default env "OPENAI_MODEL" "gpt-4o".
Definition ANTHROPIC_MODEL (env : environ) : string :=
  getenv_default env "ANTHROPIC_MODEL" "claude-3-5-sonnet-20241022".

Definition HOTKEY (env : environ) : string :=
  getenv_default env "HOTKEY" "ctrl+shift+q".

(** Seconds. *)
Definition MODAL_DISPLAY_DURATION : Z := 5.
Definition MODAL_ERROR_DURATION : Z := 10.

Definition get_model (env : environ) (provider : string) : string :=
  let provider := lower provider in
  if String.eqb provider "gemini" then GEMINI_MODEL env
  else if String.eqb provider "openai" then OPENAI_MODEL env
  else if String.eqb provider "anthropic" then ANTHROPIC_MODEL env
  else "".

Definition get_api_key (env : environ) (provider : string)
  : option string :=
  let provider := lower provider in
  if String.eqb provider "gemini" then GEMINI_API_KEY env
  else if String.eqb provider "openai" then OPENAI_API_KEY env
  else if String.eqb provider "anthropic" then ANTHROPIC_API_KEY env
  else None.

Definition validate_config (env : environ) (provider : option string)
  : bool * string :=
  let provider := or_else provider (DEFAULT_PROVIDER env) in
  let api_key := get_api_key env provider in
  if negb (truthy api_key)
  then (false, "API key for " ++ provider ++
               " not found. Please set the environment variable.")
  else (true, "").

End ConfigPy.

(* ================================================================== *)
(** * main.py *)
(* ================================================================== *)

Module Main.

Import PyStr Pathlib Trace AiProviders ConfigPy.
Local Open Scope eff_scope.

Definition QUESTION_PROMPT : string :=
  "Look at this screenshot carefully. If there is a question visible, identify the question number (if applicable) and provide a clear, concise answer. "
  ++ nl ++ nl ++
  "Format your response as:" ++ nl ++
  "- " ++ dq ++ "Question [number]: [answer]" ++ dq ++
  " if a question number is present" ++ nl ++
  "- " ++ dq ++ "[answer]" ++ dq ++
  " if no question number is present" ++ nl ++ nl ++
  "Only include the question number and answer. Be brief and direct.".

(** What surrounds one call of the coordinator: the file system, and
    what the vendor does with a request of the active provider. *)
Record world : Type := mkWorld {
  fs : string -> ScreenshotHandlerPy.dir_state;
  vendor : AIProvider -> string -> string -> vendor_call
}.

(** [ScreenshotQuestionAnswerer], as far as the coordinator reads and
    writes it (the modal is reached through [ShowAnswer]). *)
Record ScreenshotQuestionAnswerer : Type := mkApp {
  provider : AIProvider;
  last_processed_path : option string
}.

(** [sys.exit(code)], or the value the code goes on with. *)
Inductive startup (A : Type) : Type :=
| Proceed (a : A)
| SysExit (code : Z).
Arguments Proceed {A} a.
Arguments SysExit {A} code.

(** The branch [if not api_key:] of [_initialize_provider]. *)
Definition report_missing_key (provider_name : string)
  : M (startup AIProvider) :=
  print ("Error: API key for " ++ provider_name ++ " not found.") ;;;
  print "Please set the appropriate environment variable in your .env file:" ;;;
  (if String.eqb provider_name "gemini"
   then print "  GEMINI_API_KEY=your_key_here"
   else if String.eqb provider_name "openai"
   then print "  OPENAI_API_KEY=your_key_here"
   else if String.eqb provider_name "anthropic"
   then print "  ANTHROPIC_API_KEY=your_key_here"
   else ret tt) ;;;
  ret (SysExit 1%Z).

(** [ScreenshotQuestionAnswerer._initialize_provider]. *)
Definition _initialize_provider (env : environ) (pk : packages)
  (provider_name model_name : option string) : M (startup AIProvider) :=
  let provider_name := or_else provider_name (DEFAULT_PROVIDER env) in
  let api_key := get_api_key env provider_name in
  let model := or_else model_name (get_model env provider_name) in
  match api_key with
  | None => report_missing_key provider_name
  | Some key =>
      if String.eqb key "" then report_missing_key provider_name
      else
        match create_provider pk provider_name key (Some model) with
        | Returned p =>
            print ("Initialized " ++ provider_name ++
                   " provider with model: " ++ model) ;;;
            ret (Proceed p)
        | Raised err =>
            print ("Error initializing provider: " ++ err) ;;;
            ret (SysExit 1%Z)
        end
  end.

(** [ScreenshotQuestionAnswerer.__init__]. *)
Definition new_app (env : environ) (pk : packages)
  (provider_name model_name : option string)
  : M (startup ScreenshotQuestionAnswerer) :=
  r <- _initialize_provider env pk provider_name model_name ;;
  match r with
  | Proceed p => ret (Proceed (mkApp p None))
  | SysExit c => ret (SysExit c)
  end.

(** Lines 89 to 95 of [process_screenshot]: the path to work on, as a
    string, or [None] when there is nothing to do. *)
Definition resolve_path (w : world) (screenshot_path : option Path)
  : M (option string) :=
  match screenshot_path with
  | None =>
      let '(found, printed) :=
        ScreenshotHandlerPy.get_latest_screenshot
          SCREENSHOT_DIR (fs w SCREENSHOT_DIR) in
      (tt, map Print printed) ;;;
      match nonempty found with
      | None => print "No screenshots found in the directory." ;;; ret None
      | Some screenshot_path => ret (Some screenshot_path)
      end
  | Some p => ret (Some (str p))
  end.

(** Lines 104 to 122: what is done with the adapter's answer. *)
Definition route_result (r : result) : M unit :=
  let '(answer, billing_error) := r in
  match nonempty billing_error with
  | Some billing_error =>
      print ("Billing error: " ++ billing_error) ;;;
      tell (ShowAnswer billing_error MODAL_ERROR_DURATION true)
  | None =>
      match nonempty answer with
      | None => print "No answer received from AI."
      | Some answer =>
          print ("Answer: " ++ answer) ;;;
          tell (ShowAnswer answer MODAL_DISPLAY_DURATION false)
      end
  end.

(** [ScreenshotQuestionAnswerer.process_screenshot]. *)
Definition process_screenshot (w : world)
  (self : ScreenshotQuestionAnswerer) (screenshot_path : option Path)
  : M ScreenshotQuestionAnswerer :=
  resolved <- resolve_path w screenshot_path ;;
  match resolved with
  | None => ret self
  | Some screenshot_path =>
      if option_eqb_string (Some screenshot_path) (last_processed_path self)
      then ret self
      else
        print ("Processing screenshot: " ++ screenshot_path) ;;;
        let self := mkApp (provider self) (Some screenshot_path) in
        tell (ProcessImage screenshot_path QUESTION_PROMPT) ;;;
        r <- process_image (provider self)
               (vendor w (provider self) screenshot_path QUESTION_PROMPT) ;;
        route_result r ;;;
        ret self
  end.

(** A file system event of the watcher. *)
Record FileSystemEvent : Type := mkEvent {
  is_directory : bool;
  src_path : string
}.

(** The set literal of [on_created]. *)
Definition image_extensions : list string :=
  [".png"; ".jpg"; ".jpeg"; ".bmp"; ".gif"; ".webp"].

(** [file_path.suffix.lower() in image_extensions]. *)
Definition has_image_extension (file_path : Path) : bool :=
  mem (lower (suffix file_path)) image_extensions.

(** [ScreenshotHandler.on_created]. *)
Definition on_created (w : world) (app : ScreenshotQuestionAnswerer)
  (event : FileSystemEvent) : M ScreenshotQuestionAnswerer :=
  if is_directory event then ret app
  else
    let file_path := of_str (src_path event) in
    if has_image_extension file_path then
      tell (Sleep 500%Z) ;;;
      tell (Dispatch (str file_path)) ;;;
      process_screenshot w app (Some file_path)
    else ret app.

(** [ScreenshotQuestionAnswerer.run], up to the start of the observer;
    what follows is the idle loop of the main thread. *)
Definition run (w : world) (self : ScreenshotQuestionAnswerer)
  : M (startup unit) :=
  match fs w SCREENSHOT_DIR with
  | ScreenshotHandlerPy.DirAbsent =>
      print ("Error: Screenshot directory does not exist: " ++
             SCREENSHOT_DIR) ;;;
      ret (SysExit 1%Z)
  | _ =>
      print ("Monitoring screenshots directory: " ++ SCREENSHOT_DIR) ;;;
      print "Take a screenshot using Windows Key + Print Screen to process it automatically." ;;;
      print "Press Ctrl+C to exit." ;;;
      tell (StartObserver SCREENSHOT_DIR) ;;;
      ret (Proceed tt)
  end.

(** The [choices] of [--provider]: a value that is in the list, by
    [==] on strings. *)
Inductive provider_choice : Type :=
| ChoiceOpenAI
| ChoiceGemini
| ChoiceAnthropic.

Definition choice_name (c : provider_choice) : string :=
  match c with
  | ChoiceOpenAI => "openai"
  | ChoiceGemini => "gemini"
  | ChoiceAnthropic => "anthropic"
  end.

Definition choices : list string := ["openai"; "gemini"; "anthropic"].

(** [value in choices]. *)
Definition choice_of (value : string) : option provider_choice :=
  if String.eqb value "openai" then Some ChoiceOpenAI
  else if String.eqb value "gemini" then Some ChoiceGemini
  else if String.eqb value "anthropic" then Some ChoiceAnthropic
  else None.

(** The parsed command line: [args.provider], which is [None] or one of
    the [choices], and [args.model]. *)
Record args : Type := mkArgs {
  arg_provider : option provider_choice;
  arg_model : option string
}.

(** The command line, as [argparse] reads it from left to right: each
    item is an option the parser declares with the value that follows
    it ([-p]/[--provider], [-m]/[--model]), such an option without its
    value, the help option the parser adds by itself, or an argument
    the parser does not know. *)
Inductive cli_item : Type :=
| HelpOpt
| ProviderOpt (value : string)
| ProviderOptAlone
| ModelOpt (value : string)
| ModelOptAlone
| Unrecognized (argument : string).

(** [parser.parse_args()] over the two declared options.  The help
    option exits with status 0 where it stands; a value outside the
    [choices] and an option without its value exit with status 2 where
    they stand; arguments the parser does not know are collected and
    refused, with status 2, once the whole line is read.  Of an option
    given twice the last value stays. *)
Fixpoint parse_items (items : list cli_item) (a : args)
  (extras : list string) : M (startup args) :=
  match items with
  | [] =>
      match extras with
      | [] => ret (Proceed a)
      | _ :: _ =>
          tell (ParserError (UnrecognizedArguments extras)) ;;;
          ret (SysExit 2%Z)
      end
  | HelpOpt :: _ => tell ParserHelp ;;; ret (SysExit 0%Z)
  | ProviderOpt value :: rest =>
      match choice_of value with
      | Some c => parse_items rest (mkArgs (Some c) (arg_model a)) extras
      | None =>
          tell (ParserError (InvalidChoice value)) ;;; ret (SysExit 2%Z)
      end
  | ProviderOptAlone :: _ =>
      tell (ParserError (ExpectedOneArgument "-p/--provider")) ;;;
      ret (SysExit 2%Z)
  | ModelOpt value :: rest =>
      parse_items rest (mkArgs (arg_provider a) (Some value)) extras
  | ModelOptAlone :: _ =>
      tell (ParserError (ExpectedOneArgument "-m/--model")) ;;;
      ret (SysExit 2%Z)
  | Unrecognized argument :: rest =>
      parse_items rest a (extras ++ [argument])%list
  end.

Definition parse_args (argv : list cli_item) : M (startup args) :=
  parse_items argv (mkArgs None None) [].

(** Lines 186 to 190 of [main]: the application is built from the
    parsed arguments and run. *)
Definition launch (env : environ) (pk : packages) (w : world) (a : args)
  : M (startup unit) :=
  r <- new_app env pk (option_map choice_name (arg_provider a))
         (arg_model a) ;;
  match r with
  | Proceed app => run w app
  | SysExit c => ret (SysExit c)
  end.

(** [main]. *)
Definition main (env : environ) (pk : packages) (w : world)
  (argv : list cli_item) : M (startup unit) :=
  parsed <- parse_args argv ;;
  match parsed with
  | Proceed a => launch env pk w a
  | SysExit c => ret (SysExit c)
  end.

(** The observer thread scheduled by [run]: it hands the creation
    events to [on_created] one after the other, each call returning
    before the next event is looked at.  Every event comes with the
    world as it is when the event is handled. *)
Fixpoint dispatch_events (app : ScreenshotQuestionAnswerer)
  (events : list (world * FileSystemEvent))
  : M ScreenshotQuestionAnswerer :=
  match events with
  | [] => ret app
  | (w, event) :: rest =>
      app' <- on_created w app event ;;
      dispatch_events app' rest
  end.

(** The test of [on_created], as one condition on the event. *)
Definition accepts (event : FileSystemEvent) : bool :=
  negb (is_directory event) &&
  has_image_extension (of_str (src_path event)).

Definition is_sleep (e : effect) : bool :=
  match e with Sleep _ => true | _ => false end.

(** Names used in the statements below: the backend name is one of the
    three the look-ups of [config.py] and the factory compare with,
    after lower-casing. *)
Definition known_backend (provider_name : string) : bool :=
  mem (lower provider_name) ["gemini"; "openai"; "anthropic"].

(** What [report_missing_key] prints first. *)
Definition missing_key_lines (provider_name : string) : list effect :=
  [Print ("Error: API key for " ++ provider_name ++ " not found.");
   Print "Please set the appropriate environment variable in your .env file:"].

End Main.

(* ================================================================== *)
(** * ui_overlay.py *)
(* ================================================================== *)

Module UiOverlay.

Import PyStr Trace.
Local Open Scope eff_scope.
Local Open Scope Z_scope.

(** The callbacks handed to [root.after]: the closure [_show] of
    [show_answer] (with the arguments it captured), the bound method
    [_hide_with_click_through], and its closure [_hide]. *)
Inductive callback : Type :=
| Show (answer_text : string) (duration : Z) (is_warning : bool)
| HideWithClickThrough
| Hide.

(** The modal and the Tk interpreter behind it.  Time is the clock of
    the Tk thread in milliseconds; [timers] are the pending [after]
    callbacks with the time each is due, in the order Tk will fire
    them. *)
Record AnswerModal : Type := mkModal {
  root : bool;                     (* [self.root] is set *)
  now : Z;
  timers : list (Z * callback);
  viewable : bool;                 (* [deiconify] / [withdraw] *)
  label_text : string;             (* [answer_label] text *)
  label_fg : string;               (* [answer_label] colour *)
  geometry : option (Z * Z * Z * Z);
  topmost : bool;
  _hwnd : option Z;
  ex_style : Z;                    (* extended style bits of the window *)
  winfo_id : Z;                    (* the handle Tk reports *)
  winfo_screenheight : Z
}.

Definition text_color : string := "#e0e0e0".
Definition warning_color : string := "#ff9800".
Definition _ws_ex_transparent : Z := 32.    (* 0x20 *)

Definition set_timers (q : list (Z * callback)) (m : AnswerModal)
  : AnswerModal :=
  mkModal (root m) (now m) q (viewable m) (label_text m) (label_fg m)
          (geometry m) (topmost m) (_hwnd m) (ex_style m) (winfo_id m)
          (winfo_screenheight m).

Definition set_now (t : Z) (m : AnswerModal) : AnswerModal :=
  mkModal (root m) t (timers m) (viewable m) (label_text m) (label_fg m)
          (geometry m) (topmost m) (_hwnd m) (ex_style m) (winfo_id m)
          (winfo_screenheight m).

Definition set_viewable (b : bool) (m : AnswerModal) : AnswerModal :=
  mkModal (root m) (now m) (timers m) b (label_text m) (label_fg m)
          (geometry m) (topmost m) (_hwnd m) (ex_style m) (winfo_id m)
          (winfo_screenheight m).

Definition set_label (text fg : string) (m : AnswerModal) : AnswerModal :=
  mkModal (root m) (now m) (timers m) (viewable m) text fg
          (geometry m) (topmost m) (_hwnd m) (ex_style m) (winfo_id m)
          (winfo_screenheight m).

Definition set_geometry (g : Z * Z * Z * Z) (m : AnswerModal)
  : AnswerModal :=
  mkModal (root m) (now m) (timers m) (viewable m) (label_text m)
          (label_fg m) (Some g) (topmost m) (_hwnd m) (ex_style m)
          (winfo_id m) (winfo_screenheight m).

Definition set_topmost (b : bool) (m : AnswerModal) : AnswerModal :=
  mkModal (root m) (now m) (timers m) (viewable m) (label_text m)
          (label_fg m) (geometry m) b (_hwnd m) (ex_style m)
          (winfo_id m) (winfo_screenheight m).

Definition set_hwnd (h : option Z) (m : AnswerModal) : AnswerModal :=
  mkModal (root m) (now m) (timers m) (viewable m) (label_text m)
          (label_fg m) (geometry m) (topmost m) h (ex_style m)
          (winfo_id m) (winfo_screenheight m).

Definition set_ex_style (s : Z) (m : AnswerModal) : AnswerModal :=
  mkModal (root m) (now m) (timers m) (viewable m) (label_text m)
          (label_fg m) (geometry m) (topmost m) (_hwnd m) s
          (winfo_id m) (winfo_screenheight m).

(** The modal once [_setup_window] has built the window: hidden, no
    text yet, no handle yet, nothing scheduled. *)
Definition new_modal (style id screen_height : Z) : AnswerModal :=
  mkModal true 0 [] false "" text_color None true None style id
          screen_height.

(** Tk keeps its timers sorted by due time; a new timer goes behind
    those due at the same time. *)
Fixpoint insert_timer (t : Z * callback) (q : list (Z * callback))
  : list (Z * callback) :=
  match q with
  | [] => [t]
  | x :: q' =>
      if fst t <? fst x then t :: x :: q'
      else x :: insert_timer t q'
  end.

(** [self.root.after(ms, cb)]: one more timer.  Tk replaces or cancels
    a timer only through [after_cancel], which the module never calls. *)
Definition after (ms : Z) (cb : callback) (m : AnswerModal)
  : AnswerModal :=
  set_timers (insert_timer (now m + ms, cb) (timers m)) m.

(** [not self._hwnd]: no handle, or the handle 0. *)
Definition no_hwnd (m : AnswerModal) : bool :=
  match _hwnd m with
  | None => true
  | Some h => h =? 0
  end.

(** [_make_click_through]: take the window handle from Tk. *)
Definition _make_click_through (m : AnswerModal) : AnswerModal :=
  if negb (root m) then m else set_hwnd (Some (winfo_id m)) m.

(** [_set_click_through(enable)]. *)
Definition _set_click_through (enable : bool) (m : AnswerModal)
  : AnswerModal :=
  if no_hwnd m then m
  else if enable
  then set_ex_style (Z.lor (ex_style m) _ws_ex_transparent) m
  else set_ex_style (Z.land (ex_style m) (Z.lnot _ws_ex_transparent)) m.

(** [_position_window]. *)
Definition _position_window (m : AnswerModal) : AnswerModal :=
  if negb (root m) then m
  else
    let window_width := 454 in
    let window_height := 124 in
    let screen_height := winfo_screenheight m in
    let x := 20 in
    let y := screen_height - window_height - 20 in
    set_geometry (window_width, window_height, x, y) m.

(** [_hide_with_click_through]. *)
Definition _hide_with_click_through (m : AnswerModal) : AnswerModal :=
  if root m then after 0 Hide m else m.

(** The closure [_hide]. *)
Definition _hide (m : AnswerModal) : AnswerModal :=
  if root m then set_viewable false (_set_click_through true m) else m.

(** The closure [_show] of [show_answer]. *)
Definition _show (answer_text : string) (duration : Z)
  (is_warning : bool) (m : AnswerModal) : AnswerModal :=
  if negb (root m) then m
  else
    let text_color := if is_warning then warning_color else text_color in
    let m := set_label answer_text text_color m in
    let m := _position_window m in
    let m := set_topmost true (set_viewable true m) in
    let m := if no_hwnd m then set_hwnd (Some (winfo_id m)) m else m in
    let m := _set_click_through true m in
    after (duration * 1000) HideWithClickThrough m.

(** [show_answer], called while the Tk clock reads [now]. *)
Definition show_answer (answer_text : string) (duration : Z)
  (is_warning : bool) (m : AnswerModal) : M AnswerModal :=
  if negb (root m) then
    tell (Sleep 200) ;;;
    print "Warning: Modal window not ready yet" ;;;
    ret m
  else ret (after 0 (Show answer_text duration is_warning) m).

(** [hide]. *)
Definition hide (m : AnswerModal) : AnswerModal :=
  _hide_with_click_through m.

Definition run_callback (cb : callback) (m : AnswerModal) : AnswerModal :=
  match cb with
  | Show answer_text duration is_warning =>
      _show answer_text duration is_warning m
  | HideWithClickThrough => _hide_with_click_through m
  | Hide => _hide m
  end.

(** How many callbacks a pending callback can still lead to, itself
    included: a [Show] arms a [HideWithClickThrough], which posts a
    [Hide]. *)
Definition weight (cb : callback) : nat :=
  match cb with
  | Show _ _ _ => 3
  | HideWithClickThrough => 2
  | Hide => 1
  end.

Definition pending_work (q : list (Z * callback)) : nat :=
  fold_right (fun t n => (weight (snd t) + n)%nat) 0%nat q.

(** The Tk main loop, run until the clock reads [t]: fire, in order,
    every timer that is due by then. *)
Fixpoint mainloop_fuel (fuel : nat) (t : Z) (m : AnswerModal)
  : AnswerModal :=
  match fuel with
  | O => set_now (Z.max (now m) t) m
  | S fuel' =>
      match timers m with
      | (due, cb) :: q =>
          if due <=? t
          then mainloop_fuel fuel' t
                 (run_callback cb (set_now (Z.max (now m) due)
                                           (set_timers q m)))
          else set_now (Z.max (now m) t) m
      | [] => set_now (Z.max (now m) t) m
      end
  end.

Definition mainloop_until (t : Z) (m : AnswerModal) : AnswerModal :=
  mainloop_fuel (pending_work (timers m)) t m.

(** No timer is left that was due by [t]. *)
Definition settled (t : Z) (m : AnswerModal) : bool :=
  forallb (fun x => t <? fst x) (timers m).

(** The queue is in firing order. *)
Fixpoint sorted (q : list (Z * callback)) : Prop :=
  match q with
  | [] => True
  | x :: q' => (forall y, In y q' -> fst x <= fst y) /\ sorted q'
  end.

End UiOverlay.

(* ================================================================== *)
(** * Facts about strings and paths *)
(* ================================================================== *)

Module PyStrFacts.

Import PyStr.

Lemma lower_char_idem (c : ascii) : lower_char (lower_char c) = lower_char c.
Proof.
  destruct c as [[] [] [] [] [] [] [] []]; reflexivity.
Qed.

Lemma lower_idem (s : string) : lower (lower s) = lower s.
Proof.
  induction s as [|c s IH]; simpl; [reflexivity|].
  now rewrite lower_char_idem, IH.
Qed.

Lemma lower_app (a b : string) : lower (a ++ b) = lower a ++ lower b.
Proof.
  induction a as [|c a IH]; simpl; [reflexivity|now rewrite IH].
Qed.

Lemma length_lower (s : string) : String.length (lower s) = String.length s.
Proof.
  induction s as [|c s IH]; simpl; [reflexivity|now rewrite IH].
Qed.

(** Lower-casing neither makes nor removes a character outside the
    letters: in particular dots and separators stay where they are. *)
Lemma lower_char_is (x : ascii) :
  is_upper x = false ->
  (nat_of_ascii x <? 97)%nat || (122 <? nat_of_ascii x)%nat = true ->
  forall c, Ascii.eqb (lower_char c) x = Ascii.eqb c x.
Proof.
  intros Hu Hl c.
  destruct (Ascii.eqb_spec c x) as [->|Hne].
  - unfold lower_char. rewrite Hu. apply Ascii.eqb_refl.
  - destruct (Ascii.eqb_spec (lower_char c) x) as [He|_]; [|reflexivity].
    exfalso. unfold lower_char in He.
    destruct (is_upper c) eqn:Hc; [|contradiction].
    subst x. clear Hne Hu.
    destruct c as [[] [] [] [] [] [] [] []]; cbv in Hc; try discriminate Hc;
      cbv in Hl; discriminate Hl.
Qed.

Lemma lower_char_dot (c : ascii) :
  Ascii.eqb (lower_char c) "."%char = Ascii.eqb c "."%char.
Proof. apply lower_char_is; reflexivity. Qed.

Lemma rfind_dot_lower (s : string) :
  rfind "."%char (lower s) = rfind "."%char s.
Proof.
  induction s as [|c s IH]; simpl; [reflexivity|].
  now rewrite IH, lower_char_dot.
Qed.

Lemma substring_lower (n m : nat) (s : string) :
  substring n m (lower s) = lower (substring n m s).
Proof.
  revert n m; induction s as [|c s IH]; intros n m; simpl.
  - destruct n, m; reflexivity.
  - destruct n as [|n].
    + destruct m as [|m]; simpl; [reflexivity|now rewrite IH].
    + apply IH.
Qed.

Lemma drop_lower (i : nat) (s : string) : drop i (lower s) = lower (drop i s).
Proof. unfold drop. now rewrite length_lower, substring_lower. Qed.

Lemma take_lower (i : nat) (s : string) : take i (lower s) = lower (take i s).
Proof. unfold take. apply substring_lower. Qed.

(** [prefix] and [contains] as decompositions. *)
Lemma prefix_iff (k s : string) :
  prefix k s = true <-> exists q, s = k ++ q.
Proof.
  revert s; induction k as [|a k IH]; intros s; simpl.
  - split; [intros _; exists s; destruct s; reflexivity|].
    intros _. destruct s; reflexivity.
  - destruct s as [|b s]; simpl.
    + split; [discriminate|]. intros [q Hq]. discriminate Hq.
    + destruct (ascii_dec a b) as [->|Hne].
      * rewrite IH. split; intros [q Hq]; exists q.
        -- now rewrite Hq.
        -- now inversion Hq.
      * split; [discriminate|]. intros [q Hq]. inversion Hq. congruence.
Qed.

Lemma contains_iff (k s : string) :
  contains k s = true <-> exists p q, s = p ++ k ++ q.
Proof.
  induction s as [|c s IH].
  - cbn [contains]. rewrite orb_false_r, prefix_iff. split.
    + intros [q Hq]. now exists "", q.
    + intros [p [q Hpq]]. destruct p; [now exists q|discriminate Hpq].
  - cbn [contains]. rewrite orb_true_iff, prefix_iff, IH. split.
    + intros [[q Hq]|[p [q Hpq]]].
      * now exists "", q.
      * exists (String c p), q. simpl. now rewrite Hpq.
    + intros [p [q Hpq]]. destruct p as [|c' p].
      * left. now exists q.
      * right. simpl in Hpq. inversion Hpq. now exists p, q.
Qed.

Lemma string_app_assoc (a b c : string) : (a ++ b) ++ c = a ++ b ++ c.
Proof.
  induction a as [|x a IH]; simpl; [reflexivity|now rewrite IH].
Qed.

(** A part of a part is a part. *)
Lemma contains_trans (a b s : string) :
  contains a b = true -> contains b s = true -> contains a s = true.
Proof.
  rewrite !contains_iff. intros [p [q ->]] [p' [q' ->]].
  exists (p' ++ p), (q ++ q').
  now rewrite !string_app_assoc.
Qed.

(** Lower-casing the whole lower-cases every part. *)
Lemma contains_lower (k s : string) :
  contains k s = true -> contains (lower k) (lower s) = true.
Proof.
  rewrite !contains_iff. intros [p [q ->]].
  exists (lower p), (lower q). now rewrite !lower_app.
Qed.

Lemma any_in_intro (ks : list string) (k s : string) :
  In k ks -> contains k s = true -> any_in ks s = true.
Proof.
  intros Hin Hc. unfold any_in. apply existsb_exists. now exists k.
Qed.

Lemma nonempty_truthy (x : option string) :
  truthy x = match nonempty x with Some _ => true | None => false end.
Proof.
  destruct x as [s|]; simpl; [|reflexivity].
  now destruct (String.eqb s "").
Qed.

Lemma nonempty_some (x : option string) (s : string) :
  nonempty x = Some s <-> x = Some s /\ s <> "".
Proof.
  destruct x as [t|]; simpl.
  - destruct (String.eqb_spec t "") as [->|Hne]; split.
    + discriminate.
    + intros [H Hs]. inversion H. subst. contradiction.
    + intros H. inversion H. subst. now split.
    + intros [H _]. exact H.
  - split; [discriminate|]. intros [H _]. discriminate H.
Qed.

Lemma option_eqb_string_eq (x y : option string) :
  option_eqb_string x y = true <-> x = y.
Proof.
  destruct x as [a|], y as [b|]; simpl; try (split; congruence).
  rewrite String.eqb_eq. split; congruence.
Qed.

End PyStrFacts.

(* ================================================================== *)
(** * The image source reader *)
(* ================================================================== *)

Module ScreenshotHandlerFacts.

Import PyStr Pathlib ScreenshotHandlerPy PyStrFacts.
Local Open Scope Z_scope.

(** [max] returns one of its arguments. *)
Lemma max_by_key_in (k : dirent * Z) (ks : list (dirent * Z)) :
  In (max_by_key k ks) (k :: ks).
Proof.
  revert k; induction ks as [|x ks IH]; intros k; simpl.
  - now left.
  - destruct (snd k <? snd x).
    + right. apply IH.
    + destruct (IH k) as [H|H]; [now left|now right; right].
Qed.

(** The running best never loses to what [max] finally returns. *)
Lemma max_by_key_ge_best (k : dirent * Z) (ks : list (dirent * Z)) :
  snd k <= snd (max_by_key k ks).
Proof.
  revert k; induction ks as [|x ks IH]; intros k; simpl; [lia|].
  destruct (Z.ltb_spec (snd k) (snd x)).
  - specialize (IH x). lia.
  - apply IH.
Qed.

(** Nothing in the list has a greater key than what [max] returns. *)
Lemma max_by_key_ge (k : dirent * Z) (ks : list (dirent * Z)) (y : dirent * Z) :
  In y (k :: ks) -> snd y <= snd (max_by_key k ks).
Proof.
  revert k; induction ks as [|x ks IH]; intros k [<-|Hy].
  - simpl. lia.
  - destruct Hy.
  - apply max_by_key_ge_best.
  - simpl. destruct (Z.ltb_spec (snd k) (snd x)).
    + apply IH. exact Hy.
    + destruct Hy as [<-|Hy].
      * pose proof (max_by_key_ge_best k ks). lia.
      * apply IH. now right.
Qed.

(** With keys that differ, the greatest key is borne by one element
    only: [max] returns that one. *)
Lemma max_by_key_unique (k : dirent * Z) (ks : list (dirent * Z))
  (y : dirent * Z) :
  In y (k :: ks) ->
  (forall z, In z (k :: ks) -> snd z <= snd y) ->
  (forall z, In z (k :: ks) -> snd z = snd y -> z = y) ->
  max_by_key k ks = y.
Proof.
  intros Hy Hmax Huniq.
  apply Huniq; [apply max_by_key_in|].
  pose proof (max_by_key_ge k ks y Hy).
  pose proof (Hmax _ (max_by_key_in k ks)). lia.
Qed.

(** [stat_all] pairs every file with its own time stamp. *)
Lemma stat_all_returned (l : list dirent) (r : list (dirent * Z)) :
  stat_all l = Returned r ->
  map fst r = l /\ forall x, In x r -> d_stat (fst x) = StatOk (snd x).
Proof.
  revert r; induction l as [|e l IH]; intros r; simpl.
  - intros H; inversion H; subst. split; [reflexivity|intros x []].
  - destruct (d_stat e) as [t|err] eqn:He; [|discriminate].
    destruct (stat_all l) as [r'|err]; [|discriminate].
    intros H; inversion H; subst. destruct (IH r' eq_refl) as [Hm Hs].
    split; [simpl; now rewrite Hm|].
    intros x [<-|Hx]; [exact He|now apply Hs].
Qed.

(** [stat_all] raises only where a [stat] raises. *)
Lemma stat_all_total (l : list dirent) :
  (forall e, In e l -> exists t, d_stat e = StatOk t) ->
  exists r, stat_all l = Returned r.
Proof.
  induction l as [|e l IH]; intros H; simpl.
  - now exists [].
  - destruct (H e (or_introl eq_refl)) as [t ->].
    destruct IH as [r ->]; [intros e' He'; apply H; now right|].
    now eexists.
Qed.

Lemma image_files_in (d : string) (l : list dirent) (e : dirent) :
  In e (image_files d l) <-> In e l /\ is_image_file d e = true.
Proof. unfold image_files. apply filter_In. Qed.

Lemma is_image_file_iff (d : string) (e : dirent) :
  is_image_file d e = true <->
  d_is_file e = true /\
  mem (lower (suffix (joinpath d (d_name e)))) image_extensions = true.
Proof. unfold is_image_file, has_image_extension. apply andb_true_iff. Qed.

(** Whatever the body of the [try] returns is the path of a matching
    file bearing the greatest time stamp among the matching files. *)
Lemma body_returns_latest (d : string) (l : list dirent) (r : string) :
  get_latest_screenshot_body d (DirEntries l) = Returned (Some r) ->
  exists e t,
    In e l /\ is_image_file d e = true /\ d_stat e = StatOk t /\
    r = str (joinpath d (d_name e)) /\
    forall e', In e' l -> is_image_file d e' = true ->
               exists t', d_stat e' = StatOk t' /\ t' <= t.
Proof.
  unfold get_latest_screenshot_body.
  destruct (image_files d l) as [|f fs] eqn:Hf; [discriminate|].
  destruct (stat_all (f :: fs)) as [ks|err] eqn:Hs; [|discriminate].
  destruct ks as [|k ks]; [discriminate|].
  intros H; inversion H; subst r; clear H.
  destruct (stat_all_returned _ _ Hs) as [Hm Hst].
  pose proof (max_by_key_in k ks) as Hin.
  set (b := max_by_key k ks) in *.
  assert (Hbl : In (fst b) (image_files d l)).
  { rewrite Hf, <- Hm. now apply in_map. }
  apply image_files_in in Hbl. destruct Hbl as [Hbl Hbi].
  exists (fst b), (snd b). repeat split; auto.
  intros e' He' Hi'.
  assert (Hin' : In e' (map fst (k :: ks))).
  { rewrite Hm, <- Hf. apply image_files_in. now split. }
  apply in_map_iff in Hin'. destruct Hin' as [x [<- Hx]].
  exists (snd x). split; [now apply Hst|].
  now apply max_by_key_ge.
Qed.

(** Any path returned names a matching file with the greatest time
    stamp among the matching files. *)
Lemma get_latest_screenshot_sound (d : string) (st : dir_state)
  (r : string) :
  fst (get_latest_screenshot d st) = Some r ->
  exists l e t,
    st = DirEntries l /\ In e l /\ d_is_file e = true /\
    mem (lower (suffix (joinpath d (d_name e)))) image_extensions = true /\
    d_stat e = StatOk t /\
    r = str (joinpath d (d_name e)) /\
    forall e', In e' l -> is_image_file d e' = true ->
               exists t', d_stat e' = StatOk t' /\ t' <= t.
Proof.
  intros Hr. unfold get_latest_screenshot in Hr.
  destruct (get_latest_screenshot_body d st) as [[r'|]|err] eqn:Hb;
    simpl in Hr; try discriminate.
  inversion Hr; subst r'; clear Hr.
  destruct st as [|err|l]; try discriminate.
  destruct (body_returns_latest d l r Hb) as [e [t [H1 [H2 [H3 [H4 H5]]]]]].
  apply is_image_file_iff in H2. destruct H2 as [H2 H2'].
  exists l, e, t. repeat split; auto.
Qed.

(** A path is returned when there is a matching file and every [stat]
    of a matching file succeeds. *)
Lemma get_latest_screenshot_complete (d : string) (l : list dirent) :
  image_files d l <> [] ->
  (forall e, In e (image_files d l) -> exists t, d_stat e = StatOk t) ->
  exists r, fst (get_latest_screenshot d (DirEntries l)) = Some r.
Proof.
  intros Hne Hst.
  unfold get_latest_screenshot, get_latest_screenshot_body.
  destruct (image_files d l) as [|f fs] eqn:Hf; [contradiction|].
  destruct (stat_all_total (f :: fs) Hst) as [ks Hks]. rewrite Hks.
  destruct ks as [|k ks].
  - destruct (stat_all_returned _ _ Hks) as [Hm _]. discriminate Hm.
  - eexists. reflexivity.
Qed.

Lemma dirent_eq_dec (a b : dirent) : {a = b} + {a <> b}.
Proof.
  decide equality.
  - decide equality; [apply Z.eq_dec|apply string_dec].
  - apply bool_dec.
  - apply string_dec.
Qed.

(** With time stamps that differ, the file returned is exactly the one
    with the greatest. *)
Lemma get_latest_screenshot_distinct (d : string) (l : list dirent)
  (e : dirent) (t : Z) :
  In e l -> is_image_file d e = true -> d_stat e = StatOk t ->
  (forall e', In e' l -> is_image_file d e' = true -> e' <> e ->
              exists t', d_stat e' = StatOk t' /\ t' < t) ->
  fst (get_latest_screenshot d (DirEntries l))
  = Some (str (joinpath d (d_name e))).
Proof.
  intros He Hi Ht Hothers.
  assert (Hne : image_files d l <> []).
  { intros Hnil. assert (H : In e (image_files d l))
      by (apply image_files_in; now split).
    rewrite Hnil in H. destruct H. }
  assert (Hst : forall e', In e' (image_files d l) ->
                           exists t', d_stat e' = StatOk t').
  { intros e' He'. apply image_files_in in He'. destruct He' as [H1 H2].
    destruct (dirent_eq_dec e' e) as [->|Hd]; [now exists t|].
    destruct (Hothers e' H1 H2 Hd) as [t' [Ht' _]]. now exists t'. }
  destruct (get_latest_screenshot_complete d l Hne Hst) as [r Hr].
  rewrite Hr. f_equal.
  destruct (get_latest_screenshot_sound d _ r Hr)
    as [l' [e1 [t1 [Hl [H1 [H2 [H3 [H4 [H5 H6]]]]]]]]].
  inversion Hl; subst l'; clear Hl.
  destruct (dirent_eq_dec e1 e) as [->|Hd]; [exact H5|].
  exfalso.
  assert (Hi1 : is_image_file d e1 = true)
    by (apply is_image_file_iff; now split).
  destruct (Hothers e1 H1 Hi1 Hd) as [t' [Ht' Hlt]].
  destruct (H6 e He Hi) as [t'' [Ht'' Hle]].
  rewrite Ht in Ht''. rewrite H4 in Ht'. inversion Ht'; inversion Ht''. lia.
Qed.

(** The test of the comprehension, written out: a regular file whose
    lower-cased suffix is one of the six of the allow-list. *)
Lemma is_image_file_allowed (d : string) (e : dirent) :
  is_image_file d e = true <->
  d_is_file e = true /\
  In (lower (suffix (joinpath d (d_name e))))
     [".png"; ".jpg"; ".jpeg"; ".bmp"; ".gif"; ".webp"].
Proof.
  rewrite is_image_file_iff. unfold mem. rewrite existsb_exists.
  split; intros [Hf H]; (split; [exact Hf|]).
  - destruct H as [x [Hx Heq]]. apply String.eqb_eq in Heq. now subst x.
  - eexists. split; [exact H|]. apply String.eqb_refl.
Qed.

(** C2.  For every directory [d] in any state [st],
    [get_latest_screenshot] (the reader's [latest]) looks only at the
    entries directly under [d] that match, that is the regular files
    whose lower-cased suffix is one of [.png], [.jpg], [.jpeg], [.bmp],
    [.gif], [.webp], and returns the path of one bearing the greatest
    modification time stamp:
    - it returns [None], printing nothing, when the directory is
      absent;
    - it returns [None], printing nothing, when no entry matches, in
      particular when no entry has an image extension;
    - whatever path it returns is that of a matching entry whose time
      stamp is the greatest among the matching entries;
    - when some entry matches and the [stat] of every matching entry
      succeeds (whatever the other entries are), it returns the path of
      a matching entry with the greatest time stamp;
    - when the matching entries bear time stamps that differ, it
      returns exactly the one with the maximum;
    - it never raises: it is a total function, and where the body of
      its [try] raises it prints the error and returns [None]. *)
Theorem get_latest_screenshot_latest (d : string) (st : dir_state) :
  let allowed := [".png"; ".jpg"; ".jpeg"; ".bmp"; ".gif"; ".webp"] in
  let matching := fun e : dirent =>
    d_is_file e = true /\
    In (lower (suffix (joinpath d (d_name e)))) allowed in
  (st = DirAbsent -> get_latest_screenshot d st = (None, [])) /\
  (forall l, st = DirEntries l ->
     (forall e, In e l -> ~ matching e) ->
     get_latest_screenshot d st = (None, [])) /\
  (forall l, st = DirEntries l ->
     (forall e, In e l ->
        ~ In (lower (suffix (joinpath d (d_name e)))) allowed) ->
     get_latest_screenshot d st = (None, [])) /\
  (forall r, fst (get_latest_screenshot d st) = Some r ->
     exists l e t,
       st = DirEntries l /\ In e l /\ matching e /\
       d_stat e = StatOk t /\
       r = str (joinpath d (d_name e)) /\
       forall e', In e' l -> matching e' ->
                  exists t', d_stat e' = StatOk t' /\ t' <= t) /\
  (forall l, st = DirEntries l ->
     (exists e, In e l /\ matching e) ->
     (forall e, In e l -> matching e -> exists t, d_stat e = StatOk t) ->
     exists e t,
       In e l /\ matching e /\ d_stat e = StatOk t /\
       (forall e', In e' l -> matching e' ->
                   exists t', d_stat e' = StatOk t' /\ t' <= t) /\
       get_latest_screenshot d st
       = (Some (str (joinpath d (d_name e))), [])) /\
  (forall l e t, st = DirEntries l ->
     In e l -> matching e -> d_stat e = StatOk t ->
     (forall e', In e' l -> matching e' -> e' <> e ->
                 exists t', d_stat e' = StatOk t' /\ t' < t) ->
     get_latest_screenshot d st
     = (Some (str (joinpath d (d_name e))), [])) /\
  (forall err, get_latest_screenshot_body d st = Raised err ->
     get_latest_screenshot d st
     = (None, ["Error getting latest screenshot: " ++ err])) /\
  (get_latest_screenshot
     "dir" (DirEntries [mkDirent "shot1.png" true (StatOk 100);
                        mkDirent "shot2.jpg" true (StatOk 200)])
   = (Some "dir\shot2.jpg", [])).
Proof.
  intros allowed matching.
  assert (Hm : forall e, is_image_file d e = true <-> matching e)
    by (intros e; apply is_image_file_allowed).
  assert (Hprints : forall st' r,
            fst (get_latest_screenshot d st') = Some r ->
            get_latest_screenshot d st' = (Some r, [])).
  { intros st' r. unfold get_latest_screenshot.
    destruct (get_latest_screenshot_body d st') as [o|err]; cbn [fst].
    - now intros ->.
    - discriminate. }
  assert (Hempty : forall l,
            (forall e, In e l -> ~ matching e) -> image_files d l = []).
  { intros l Hno. unfold image_files.
    induction l as [|e l IH]; [reflexivity|]. cbn [filter].
    destruct (is_image_file d e) eqn:He.
    - exfalso. apply (Hno e); [now left|]. now apply Hm.
    - apply IH. intros e' He'. apply Hno. now right. }
  assert (Hnone : forall l,
            (forall e, In e l -> ~ matching e) ->
            get_latest_screenshot d (DirEntries l) = (None, [])).
  { intros l Hno. unfold get_latest_screenshot, get_latest_screenshot_body.
    now rewrite (Hempty l Hno). }
  assert (Hsound : forall r,
            fst (get_latest_screenshot d st) = Some r ->
            exists l e t,
              st = DirEntries l /\ In e l /\ matching e /\
              d_stat e = StatOk t /\
              r = str (joinpath d (d_name e)) /\
              forall e', In e' l -> matching e' ->
                         exists t', d_stat e' = StatOk t' /\ t' <= t).
  { intros r Hr.
    destruct (get_latest_screenshot_sound d st r Hr)
      as [l [e [t [H1 [H2 [H3 [H4 [H5 [H6 H7]]]]]]]]].
    exists l, e, t. repeat split; auto.
    - apply Hm. apply is_image_file_iff. now split.
    - intros e' He' Hm'. apply H7; [exact He'|]. now apply Hm. }
  split; [|split; [|split; [|split; [|split; [|split; [|split]]]]]].
  - intros ->. reflexivity.
  - intros l ->. apply Hnone.
  - intros l -> Hno. apply Hnone. intros e He [_ Hs].
    now apply (Hno e He).
  - exact Hsound.
  - intros l Hst [e0 [He0 Hm0]] Hstat.
    assert (Hne : image_files d l <> []).
    { intros Hnil. assert (H : In e0 (image_files d l))
        by (apply image_files_in; split; [exact He0|now apply Hm]).
      rewrite Hnil in H. destruct H. }
    assert (Hall : forall e, In e (image_files d l) ->
                             exists t, d_stat e = StatOk t).
    { intros e He. apply image_files_in in He. destruct He as [H1 H2].
      apply Hstat; [exact H1|now apply Hm]. }
    destruct (get_latest_screenshot_complete d l Hne Hall) as [r Hr].
    rewrite <- Hst in Hr.
    destruct (Hsound r Hr) as [l' [e [t [H1 [H2 [H3 [H4 [H5 H6]]]]]]]].
    rewrite Hst in H1. inversion H1; subst l'.
    exists e, t. repeat split; try assumption; try apply H3.
    rewrite (Hprints st r Hr). now rewrite H5.
  - intros l e t -> He Hme Ht Hothers.
    apply Hprints.
    apply (get_latest_screenshot_distinct d l e t He); [now apply Hm|exact Ht|].
    intros e' He' Hi' Hd. apply Hothers; [exact He'|now apply Hm|exact Hd].
  - intros err Hb. unfold get_latest_screenshot. now rewrite Hb.
  - reflexivity.
Qed.

(** The scenario of the specification: [shot1.png] written at 100 and
    [shot2.jpg] written at 200. *)
Example latest_of_two :
  fst (get_latest_screenshot "dir"
         (DirEntries [mkDirent "shot1.png" true (StatOk 100);
                      mkDirent "notes.txt" true (StatOk 300);
                      mkDirent "shot2.jpg" true (StatOk 200)]))
  = Some "dir\shot2.jpg".
Proof. reflexivity. Qed.

End ScreenshotHandlerFacts.

(* ================================================================== *)
(** * The vision backend adapters *)
(* ================================================================== *)

Module AiProvidersFacts.

Import PyStr Trace AiProviders PyStrFacts.

Lemma billing_message_nonempty (self : AIProvider) :
  billing_message self <> "".
Proof. destruct self; discriminate. Qed.

(** The three handlers in one equation. *)
Lemma process_image_fails (self : AIProvider) (e : exn) :
  value_of (process_image self (Fails e)) =
  if billing_detected self e then (None, Some (billing_message self))
  else (None, None).
Proof.
  destruct self; unfold process_image, billing_detected, billing_keywords,
    billing_message, gemini_process_image, openai_process_image,
    anthropic_process_image, value_of, print, tell, bind, ret.
  - now destruct (any_in gemini_billing_keywords (lower (exn_str e))).
  - now destruct (openai_is_billing_error e).
  - now destruct (any_in anthropic_billing_keywords (lower (exn_str e))).
Qed.

Lemma process_image_responds (self : AIProvider) (text : string) :
  process_image self (Responds text) = ((Some text, None), []).
Proof. destruct self; reflexivity. Qed.

(** An adapter prints, and nothing else. *)
Lemma process_image_prints (self : AIProvider) (call : vendor_call) :
  backend_calls (effects_of (process_image self call)) = [] /\
  overlay_calls (effects_of (process_image self call)) = [] /\
  filter is_dispatch (effects_of (process_image self call)) = [].
Proof.
  destruct call as [text|e].
  - rewrite process_image_responds. now repeat split.
  - destruct self; unfold process_image, gemini_process_image,
      openai_process_image, anthropic_process_image, effects_of, print,
      tell, bind, ret.
    + now destruct (any_in gemini_billing_keywords (lower (exn_str e))).
    + now destruct (openai_is_billing_error e).
    + now destruct (any_in anthropic_billing_keywords (lower (exn_str e))).
Qed.

(** A message that mentions [insufficient_quota] mentions it after
    lower-casing too, and with it [quota] and [insufficient]. *)
Lemma insufficient_quota_lower (s : string) :
  contains "insufficient_quota" s = true ->
  contains "insufficient_quota" (lower s) = true /\
  contains "quota" (lower s) = true.
Proof.
  intros H. apply contains_lower in H. simpl lower in H.
  change (String (lower_char "i") _) with "insufficient_quota" in H.
  split; [exact H|].
  apply (contains_trans _ "insufficient_quota"); [reflexivity|exact H].
Qed.

(** The claim C3 counts, for the OpenAI adapter, an exception whose
    [status_code] or [code] attribute is 429 or 402 as a billing error.
    The adapter reads [code] only on an exception that has no attribute
    [status_code]: when [status_code] is there, holding 500 or [None],
    an exception whose [code] is 429 or 402 is answered with the silent
    failure [(None, None)]. *)
Lemma code_attribute_counterexample :
  let self := OpenAIProvider "key" "gpt-4o" in
  let e500 := mkExn "APIStatusError" "Internal server error"
                    (Some (PyInt 500)) (Some (PyInt 429)) in
  let enone := mkExn "APIError" "Connection reset"
                     (Some PyNone) (Some (PyInt 402)) in
  exn_code e500 = Some (PyInt 429) /\
  process_image self (Fails e500)
  = ((None, None), [Print "OpenAI API error: Internal server error"]) /\
  exn_code enone = Some (PyInt 402) /\
  process_image self (Fails enone)
  = ((None, None), [Print "OpenAI API error: Connection reset"]).
Proof. cbv zeta. repeat split. Qed.

(** C3, amended.  An exception of the vendor call whose message
    [str(e)] contains [insufficient_quota] is answered, by each of the
    three adapters, with [(None, warning)] for a non-empty warning
    text; and so is, by the OpenAI adapter, an exception whose
    attribute [status_code] is 429 or 402, or which has no attribute
    [status_code] and whose attribute [code] is 429 or 402. *)
Theorem billing_error_is_warned (self : AIProvider) (e : exn)
  (H : contains "insufficient_quota" (exn_str e) = true \/
       (is_openai self = true /\
        (exn_status_code e = Some (PyInt 429) \/
         exn_status_code e = Some (PyInt 402) \/
         (exn_status_code e = None /\ exn_code e = Some (PyInt 429)) \/
         (exn_status_code e = None /\ exn_code e = Some (PyInt 402))))) :
  exists warning,
    value_of (process_image self (Fails e)) = (None, Some warning) /\
    warning = billing_message self /\ warning <> "".
Proof.
  exists (billing_message self).
  split; [|split; [reflexivity|apply billing_message_nonempty]].
  rewrite process_image_fails.
  replace (billing_detected self e) with true; [reflexivity|symmetry].
  destruct H as [Hmsg|[Ho Hcode]].
  - destruct (insufficient_quota_lower _ Hmsg) as [Hq Hq'].
    destruct self; unfold billing_detected, billing_keywords,
      openai_is_billing_error.
    + apply (any_in_intro _ "quota"); [simpl; tauto|exact Hq'].
    + rewrite (any_in_intro openai_billing_keywords "insufficient_quota");
        [now rewrite orb_true_r|simpl; tauto|exact Hq].
    + apply (any_in_intro _ "quota"); [simpl; tauto|exact Hq'].
  - destruct self; try discriminate Ho.
    unfold billing_detected, openai_is_billing_error, openai_error_code.
    destruct Hcode as [->|[->|[[-> ->]|[-> ->]]]]; reflexivity.
Qed.

Lemma billing_error_is_warned_witness :
  let e := mkExn "ResourceExhausted"
                 "You exceeded your current quota: insufficient_quota"
                 None None in
  let self := GeminiProvider "key" "gemini-1.5-flash" in
  contains "insufficient_quota" (exn_str e) = true /\
  exists warning,
    value_of (process_image self (Fails e)) = (None, Some warning) /\
    warning = billing_message self /\ warning <> "".
Proof.
  split; [reflexivity|].
  apply (billing_error_is_warned (GeminiProvider "key" "gemini-1.5-flash")).
  left. reflexivity.
Defined.

(** The error code alone is enough for the OpenAI adapter. *)
Example status_429_is_warned :
  value_of (process_image (OpenAIProvider "key" "gpt-4o")
              (Fails (mkExn "APIStatusError" "Too Many Requests"
                            (Some (PyInt 429)) (Some (PyStr "throttled")))))
  = (None, Some openai_billing_message).
Proof. reflexivity. Qed.

(** The scenario of the specification: a rate limit message. *)
Example rate_limit_is_warned (self : AIProvider) :
  value_of (process_image self
              (Fails (mkExn "RateLimitError"
                            "Rate limit exceeded, please upgrade your plan"
                            None None)))
  = (None, Some (billing_message self)).
Proof. destruct self; reflexivity. Qed.

(** C6.  Whatever the vendor does, [process_image] of each of the
    three adapters fills at most one of its two output slots: a reply
    gives [(text, None)], an exception in which a billing condition is
    detected gives [(None, warning)], any other exception gives
    [(None, None)], and no call gives both a text and a warning. *)
Theorem process_image_one_slot (self : AIProvider) (call : vendor_call) :
  (forall text, call = Responds text ->
     value_of (process_image self call) = (Some text, None)) /\
  (forall e, call = Fails e -> billing_detected self e = true ->
     value_of (process_image self call) = (None, Some (billing_message self))) /\
  (forall e, call = Fails e -> billing_detected self e = false ->
     value_of (process_image self call) = (None, None)) /\
  (fst (value_of (process_image self call)) = None \/
   snd (value_of (process_image self call)) = None).
Proof.
  repeat split.
  - intros text ->. now rewrite process_image_responds.
  - intros e -> Hb. now rewrite process_image_fails, Hb.
  - intros e -> Hb. now rewrite process_image_fails, Hb.
  - destruct call as [text|e].
    + right. now rewrite process_image_responds.
    + left. rewrite process_image_fails. now destruct (billing_detected self e).
Qed.

End AiProvidersFacts.

(* ================================================================== *)
(** * The pipeline coordinator and the watch handler *)
(* ================================================================== *)

Module MainFacts.

Import PyStr Pathlib Trace AiProviders ConfigPy Main.
Import PyStrFacts AiProvidersFacts.

(** Unfolding of the effect monad. *)
Ltac run_eff :=
  unfold value_of, effects_of, print, tell, bind, ret in *; simpl in *.

(** A path that was resolved was resolved without a word. *)
Lemma resolve_path_some (w : world) (arg : option Path) (path : string) :
  value_of (resolve_path w arg) = Some path ->
  resolve_path w arg = (Some path, []).
Proof.
  destruct arg as [p|]; unfold resolve_path.
  - run_eff. now intros ->.
  - unfold ScreenshotHandlerPy.get_latest_screenshot.
    destruct (ScreenshotHandlerPy.get_latest_screenshot_body _ _)
      as [found|err].
    + destruct (nonempty found) as [s|]; run_eff; [now intros ->|discriminate].
    + run_eff. discriminate.
Qed.

(** Duplicate suppression: the path is the one processed last. *)
Lemma process_screenshot_duplicate (w : world)
  (self : ScreenshotQuestionAnswerer) (arg : option Path) (path : string) :
  value_of (resolve_path w arg) = Some path ->
  last_processed_path self = Some path ->
  process_screenshot w self arg = (self, []).
Proof.
  intros Hr Hl. apply resolve_path_some in Hr.
  unfold process_screenshot. rewrite Hr, Hl.
  unfold bind at 1. cbv beta iota. cbn [option_eqb_string].
  now rewrite String.eqb_refl.
Qed.

(** What a call does with a path that is not the one processed last. *)
Lemma process_screenshot_fresh (w : world)
  (self : ScreenshotQuestionAnswerer) (arg : option Path) (path : string) :
  value_of (resolve_path w arg) = Some path ->
  last_processed_path self <> Some path ->
  let reply :=
    process_image (provider self)
      (vendor w (provider self) path QUESTION_PROMPT) in
  process_screenshot w self arg =
  (mkApp (provider self) (Some path),
   (Print ("Processing screenshot: " ++ path)
    :: ProcessImage path QUESTION_PROMPT
    :: effects_of reply ++ effects_of (route_result (value_of reply)))%list).
Proof.
  intros Hr Hl reply. apply resolve_path_some in Hr.
  unfold process_screenshot. rewrite Hr.
  unfold bind at 1. cbv beta iota.
  destruct (option_eqb_string (Some path) (last_processed_path self)) eqn:He.
  - apply option_eqb_string_eq in He. congruence.
  - cbn [provider]. subst reply.
    unfold value_of, effects_of, print, tell, bind, ret.
    destruct (process_image _ _) as [r l1]. cbn [fst snd].
    destruct (route_result r) as [[] l2]. cbn [fst snd app].
    now rewrite app_nil_r.
Qed.

(** Routing the answer calls the overlay at most, never the backend. *)
Lemma route_result_backend (r : result) :
  backend_calls (effects_of (route_result r)) = [].
Proof.
  destruct r as [answer billing]. unfold route_result.
  destruct (nonempty billing); [reflexivity|].
  now destruct (nonempty answer).
Qed.

Lemma backend_calls_app (l1 l2 : list effect) :
  backend_calls (l1 ++ l2) = (backend_calls l1 ++ backend_calls l2)%list.
Proof. apply filter_app. Qed.

Lemma overlay_calls_app (l1 l2 : list effect) :
  overlay_calls (l1 ++ l2) = (overlay_calls l1 ++ overlay_calls l2)%list.
Proof. apply filter_app. Qed.

Lemma only_prints (lines : list string) :
  backend_calls (map Print lines) = [] /\
  overlay_calls (map Print lines) = [].
Proof. induction lines as [|x l [IH1 IH2]]; simpl; auto. Qed.

(** Resolving the path prints at most. *)
Lemma resolve_path_prints (w : world) (arg : option Path) :
  backend_calls (effects_of (resolve_path w arg)) = [] /\
  overlay_calls (effects_of (resolve_path w arg)) = [].
Proof.
  destruct arg as [p|]; unfold resolve_path; [now split|].
  destruct (ScreenshotHandlerPy.get_latest_screenshot _ _) as [found printed].
  destruct (only_prints printed) as [Hb Ho].
  destruct (nonempty found); unfold effects_of, print, tell, bind, ret;
    cbn [fst snd]; rewrite ?app_nil_r, ?backend_calls_app, ?overlay_calls_app,
    Hb, Ho; now split.
Qed.

(** Nothing to work on: the call ends where the resolution ends. *)
Lemma process_screenshot_nothing (w : world)
  (self : ScreenshotQuestionAnswerer) (arg : option Path) :
  value_of (resolve_path w arg) = None ->
  process_screenshot w self arg = (self, effects_of (resolve_path w arg)).
Proof.
  unfold process_screenshot, value_of, effects_of.
  destruct (resolve_path w arg) as [v l]. cbn [fst snd]. intros ->.
  unfold bind, ret. now rewrite app_nil_r.
Qed.

(** One call of the coordinator calls the backend once at most. *)
Lemma process_screenshot_backend_once (w : world)
  (self : ScreenshotQuestionAnswerer) (arg : option Path) :
  (length (backend_calls (effects_of (process_screenshot w self arg))) <= 1)%nat.
Proof.
  destruct (value_of (resolve_path w arg)) as [path|] eqn:Hr.
  - destruct (option_eqb_string (last_processed_path self) (Some path)) eqn:He.
    + apply option_eqb_string_eq in He.
      rewrite (process_screenshot_duplicate w self arg path Hr He). simpl. lia.
    + assert (Hne : last_processed_path self <> Some path).
      { intros H. apply option_eqb_string_eq in H. congruence. }
      rewrite (process_screenshot_fresh w self arg path Hr Hne).
      unfold effects_of at 1. cbn [snd backend_calls filter is_process_image].
      fold (backend_calls
              (effects_of (process_image (provider self)
                 (vendor w (provider self) path QUESTION_PROMPT)) ++
               effects_of (route_result (value_of (process_image (provider self)
                 (vendor w (provider self) path QUESTION_PROMPT)))))).
      rewrite backend_calls_app, route_result_backend.
      destruct (process_image_prints (provider self)
                  (vendor w (provider self) path QUESTION_PROMPT)) as [-> _].
      simpl. lia.
  - rewrite (process_screenshot_nothing w self arg Hr).
    unfold effects_of at 1. cbn [snd].
    destruct (resolve_path_prints w arg) as [-> _]. simpl. lia.
Qed.

(** C1.  Take the coordinator in any state, that is after any sequence
    of earlier calls, and call [process_screenshot] twice in direct
    succession, both calls resolving to the same path.  Then the two
    calls together call the backend's [process_image] once at most, and
    the second call returns at once: it performs no effect at all (no
    backend call, no overlay call) and leaves the state as it is. *)
Theorem same_path_twice_one_backend_call (w1 w2 : world)
  (self : ScreenshotQuestionAnswerer) (arg1 arg2 : option Path)
  (path : string)
  (H1 : value_of (resolve_path w1 arg1) = Some path)
  (H2 : value_of (resolve_path w2 arg2) = Some path) :
  let first := process_screenshot w1 self arg1 in
  let second := process_screenshot w2 (value_of first) arg2 in
  (length (backend_calls (effects_of first ++ effects_of second)) <= 1)%nat /\
  effects_of second = [] /\
  value_of second = value_of first.
Proof.
  intros first second.
  assert (Hlast : last_processed_path (value_of first) = Some path).
  { subst first.
    destruct (option_eqb_string (last_processed_path self) (Some path)) eqn:He.
    - apply option_eqb_string_eq in He.
      now rewrite (process_screenshot_duplicate w1 self arg1 path H1 He).
    - assert (Hne : last_processed_path self <> Some path).
      { intros H. apply option_eqb_string_eq in H. congruence. }
      now rewrite (process_screenshot_fresh w1 self arg1 path H1 Hne). }
  assert (Hsecond : second = (value_of first, [])).
  { subst second. now apply (process_screenshot_duplicate w2 _ arg2 path). }
  rewrite Hsecond. unfold effects_of at 2 3, value_of at 1. simpl snd. simpl fst.
  rewrite app_nil_r. repeat split.
  apply process_screenshot_backend_once.
Qed.

Lemma same_path_twice_witness :
  let shot := "C:\Users\janpa\Pictures\Screenshots\shot2.jpg" in
  let w := mkWorld
    (fun _ => ScreenshotHandlerPy.DirEntries
       [ScreenshotHandlerPy.mkDirent "shot1.png" true
          (ScreenshotHandlerPy.StatOk 100);
        ScreenshotHandlerPy.mkDirent "shot2.jpg" true
          (ScreenshotHandlerPy.StatOk 200)])
    (fun _ _ _ => Responds "Question 3: B") in
  let self := mkApp (OpenAIProvider "key" "gpt-4o") None in
  let first := process_screenshot w self (Some (of_str shot)) in
  let second := process_screenshot w (value_of first) None in
  value_of (resolve_path w (Some (of_str shot))) = Some shot /\
  value_of (resolve_path w None) = Some shot /\
  (length (backend_calls (effects_of first ++ effects_of second)) <= 1)%nat /\
  effects_of second = [] /\
  value_of second = value_of first.
Proof.
  intros shot w self first second.
  split; [reflexivity|]. split; [reflexivity|].
  apply (same_path_twice_one_backend_call w w self
           (Some (of_str shot)) None shot); reflexivity.
Defined.

(** Routing a result whose warning is a non-empty text: the overlay is
    asked once, for the warning, for ten seconds, as a warning. *)
Lemma route_result_warning (answer : option string) (warning : string) :
  warning <> "" ->
  route_result (answer, Some warning) =
  (tt, [Print ("Billing error: " ++ warning);
        ShowAnswer warning MODAL_ERROR_DURATION true]).
Proof.
  intros Hne. unfold route_result.
  replace (nonempty (Some warning)) with (Some warning); [reflexivity|].
  symmetry. apply nonempty_some. now split.
Qed.

(** Routing a non-empty answer that comes without a warning. *)
Lemma route_result_answer (text : string) :
  text <> "" ->
  route_result (Some text, None) =
  (tt, [Print ("Answer: " ++ text);
        ShowAnswer text MODAL_DISPLAY_DURATION false]).
Proof.
  intros Hne. unfold route_result.
  replace (nonempty (Some text)) with (Some text); [reflexivity|].
  symmetry. apply nonempty_some. now split.
Qed.

(** Routing a result with neither: nothing is shown. *)
Lemma route_result_silent :
  route_result (None, None) = (tt, [Print "No answer received from AI."]).
Proof. reflexivity. Qed.

(** The overlay calls of a call that reaches the backend are those of
    the routing of the reply. *)
Lemma process_screenshot_overlay (w : world)
  (self : ScreenshotQuestionAnswerer) (arg : option Path) (path : string) :
  value_of (resolve_path w arg) = Some path ->
  last_processed_path self <> Some path ->
  overlay_calls (effects_of (process_screenshot w self arg)) =
  overlay_calls
    (effects_of
       (route_result
          (value_of (process_image (provider self)
                       (vendor w (provider self) path QUESTION_PROMPT))))).
Proof.
  intros Hr Hl. rewrite (process_screenshot_fresh w self arg path Hr Hl).
  unfold effects_of at 1. cbn [snd overlay_calls filter is_show_answer].
  fold (overlay_calls
          (effects_of (process_image (provider self)
             (vendor w (provider self) path QUESTION_PROMPT)) ++
           effects_of (route_result (value_of (process_image (provider self)
             (vendor w (provider self) path QUESTION_PROMPT)))))).
  rewrite overlay_calls_app.
  now destruct (process_image_prints (provider self)
                  (vendor w (provider self) path QUESTION_PROMPT))
    as [_ [-> _]].
Qed.

(** A reply of an adapter: either a text alone, or the adapter's
    warning alone, or nothing. *)
Lemma reply_shape (self : AIProvider) (call : vendor_call) :
  (exists text, call = Responds text /\
     value_of (process_image self call) = (Some text, None)) \/
  value_of (process_image self call) = (None, Some (billing_message self)) \/
  value_of (process_image self call) = (None, None).
Proof.
  destruct call as [text|e].
  - left. exists text. now rewrite process_image_responds.
  - right. rewrite process_image_fails.
    destruct (billing_detected self e); [now left|now right].
Qed.



(** C4, as the specification states it, fails on the OpenAI adapter:
    an exception whose message holds no billing keyword and which has
    neither a [status_code] nor a [code] is still answered with the
    billing warning when the name of its class contains [quota]. *)
Lemma silent_failure_counterexample :
  let e := mkExn "QuotaExceededError" "request rejected" None None in
  let self := OpenAIProvider "key" "gpt-4o" in
  any_in (billing_keywords self) (lower (exn_str e)) = false /\
  exn_status_code e = None /\ exn_code e = None /\
  value_of (process_image self (Fails e))
  = (None, Some openai_billing_message) /\
  value_of (process_image self (Fails e)) <> (None, None).
Proof. cbv zeta. repeat split; try reflexivity. discriminate. Qed.

(** C4, amended.  Take a call of [process_screenshot] that reaches the
    adapter, and let the vendor call raise an exception whose
    lower-cased message contains none of the adapter's billing
    keywords, whose error code is neither 402 nor 429 and, for the
    OpenAI adapter, whose lower-cased class name contains neither
    [quota] nor [billing].  Then [process_image] returns [(None, None)],
    nothing is shown, and the coordinator has all the same recorded the
    path as the last one processed: a next call for the same path
    returns at once, without calling the backend again. *)
Theorem silent_failure_still_marks_processed (w : world)
  (self : ScreenshotQuestionAnswerer) (arg : option Path) (path : string)
  (e : exn)
  (Hr : value_of (resolve_path w arg) = Some path)
  (Hl : last_processed_path self <> Some path)
  (Hv : vendor w (provider self) path QUESTION_PROMPT = Fails e)
  (Hkw : any_in (billing_keywords (provider self)) (lower (exn_str e))
         = false)
  (Hcode : pyval_in (openai_error_code e) [402; 429]%Z = false)
  (Htype : is_openai (provider self) = true ->
           contains "quota" (lower (exn_type_name e)) = false /\
           contains "billing" (lower (exn_type_name e)) = false) :
  value_of (process_image (provider self) (Fails e)) = (None, None) /\
  let after := value_of (process_screenshot w self arg) in
  last_processed_path after = Some path /\
  overlay_calls (effects_of (process_screenshot w self arg)) = [] /\
  forall w' arg',
    value_of (resolve_path w' arg') = Some path ->
    process_screenshot w' after arg' = (after, []).
Proof.
  assert (Hsilent :
    value_of (process_image (provider self) (Fails e)) = (None, None)).
  { rewrite process_image_fails.
    replace (billing_detected (provider self) e) with false; [reflexivity|].
    symmetry. unfold billing_detected.
    destruct (provider self) eqn:Hp; try exact Hkw.
    unfold openai_is_billing_error. cbn [billing_keywords] in Hkw.
    destruct (Htype eq_refl) as [Hq Hb].
    now rewrite Hcode, Hkw, Hq, Hb. }
  split; [exact Hsilent|]. intros after.
  assert (Hafter : last_processed_path after = Some path).
  { subst after. now rewrite (process_screenshot_fresh w self arg path Hr Hl). }
  split; [exact Hafter|]. split.
  - rewrite (process_screenshot_overlay w self arg path Hr Hl), Hv, Hsilent.
    reflexivity.
  - intros w' arg' Hr'.
    now apply (process_screenshot_duplicate w' after arg' path).
Qed.

Lemma silent_failure_witness :
  let shot := "C:\Users\janpa\Pictures\Screenshots\shot2.jpg" in
  let e := mkExn "APIConnectionError" "Connection error." None None in
  let w := mkWorld (fun _ => ScreenshotHandlerPy.DirAbsent)
                   (fun _ _ _ => Fails e) in
  let self := mkApp (OpenAIProvider "key" "gpt-4o") None in
  let arg := Some (of_str shot) in
  value_of (process_image (provider self) (Fails e)) = (None, None) /\
  let after := value_of (process_screenshot w self arg) in
  last_processed_path after = Some shot /\
  overlay_calls (effects_of (process_screenshot w self arg)) = [] /\
  forall w' arg',
    value_of (resolve_path w' arg') = Some shot ->
    process_screenshot w' after arg' = (after, []).
Proof.
  intros shot e w self arg.
  apply (silent_failure_still_marks_processed w self arg shot e);
    try reflexivity.
  - discriminate.
  - intros _. split; reflexivity.
Defined.

(** The coordinator never dispatches: only the watch handler does. *)
Lemma process_screenshot_no_dispatch (w : world)
  (self : ScreenshotQuestionAnswerer) (arg : option Path) :
  filter is_dispatch (effects_of (process_screenshot w self arg)) = [].
Proof.
  destruct (value_of (resolve_path w arg)) as [path|] eqn:Hr.
  - destruct (option_eqb_string (last_processed_path self) (Some path)) eqn:He.
    + apply option_eqb_string_eq in He.
      now rewrite (process_screenshot_duplicate w self arg path Hr He).
    + assert (Hne : last_processed_path self <> Some path).
      { intros H. apply option_eqb_string_eq in H. congruence. }
      rewrite (process_screenshot_fresh w self arg path Hr Hne).
      unfold effects_of at 1. cbn [snd filter is_dispatch].
      rewrite filter_app.
      destruct (process_image_prints (provider self)
                  (vendor w (provider self) path QUESTION_PROMPT))
        as [_ [_ ->]].
      destruct (process_image _ _) as [[answer billing] l]. cbn [value_of fst].
      unfold route_result.
      destruct (nonempty billing); [reflexivity|].
      now destruct (nonempty answer).
  - rewrite (process_screenshot_nothing w self arg Hr).
    unfold effects_of at 1. cbn [snd].
    destruct arg as [p|]; unfold resolve_path; [reflexivity|].
    destruct (ScreenshotHandlerPy.get_latest_screenshot _ _) as [found printed].
    assert (Hp : filter is_dispatch (map Print printed) = [])
      by (induction printed; simpl; auto).
    destruct (nonempty found); unfold effects_of, print, tell, bind, ret;
      cbn [fst snd]; rewrite ?app_nil_r, ?filter_app, Hp; reflexivity.
Qed.

(** The handler with an event it takes. *)
Lemma on_created_image (w : world) (app : ScreenshotQuestionAnswerer)
  (event : FileSystemEvent) :
  is_directory event = false ->
  has_image_extension (of_str (src_path event)) = true ->
  on_created w app event =
  (value_of (process_screenshot w app (Some (of_str (src_path event)))),
   Sleep 500%Z :: Dispatch (str (of_str (src_path event)))
   :: effects_of (process_screenshot w app (Some (of_str (src_path event))))).
Proof.
  intros Hd He. unfold on_created. rewrite Hd, He.
  unfold value_of, effects_of, tell, bind.
  now destruct (process_screenshot _ _ _).
Qed.

(** The handler with an event it drops. *)
Lemma on_created_other (w : world) (app : ScreenshotQuestionAnswerer)
  (event : FileSystemEvent) :
  is_directory event = true \/
  has_image_extension (of_str (src_path event)) = false ->
  on_created w app event = (app, []).
Proof.
  intros [Hd|He]; unfold on_created.
  - now rewrite Hd.
  - rewrite He. now destruct (is_directory event).
Qed.

(** C9.  For every file creation event, the watch handler calls the
    coordinator's [process_screenshot] only if the event is not for a
    directory and the lower-cased suffix of its path is in the image
    allow-list; when it does, it has first slept the settle delay of
    500 ms, and the rest of its trace is the coordinator's.  An event
    it drops leaves no effect and the state as it is; so does, in
    particular, a creation event for [note.txt]. *)
Theorem on_created_dispatches_images_only (w : world)
  (app : ScreenshotQuestionAnswerer) (event : FileSystemEvent) :
  let file_path := of_str (src_path event) in
  let accepted :=
    negb (is_directory event) &&
    mem (lower (suffix file_path)) image_extensions in
  (filter is_dispatch (effects_of (on_created w app event)) <> [] ->
   accepted = true) /\
  (accepted = true ->
   on_created w app event =
   (value_of (process_screenshot w app (Some file_path)),
    Sleep 500%Z :: Dispatch (str file_path)
    :: effects_of (process_screenshot w app (Some file_path)))) /\
  (accepted = false -> on_created w app event = (app, [])) /\
  (forall b, on_created w app (mkEvent b "note.txt") = (app, [])) /\
  (forall b,
     on_created w app
       (mkEvent b "C:\Users\janpa\Pictures\Screenshots\note.txt")
     = (app, [])).
Proof.
  intros file_path accepted.
  assert (Hyes : accepted = true ->
    on_created w app event =
    (value_of (process_screenshot w app (Some file_path)),
     Sleep 500%Z :: Dispatch (str file_path)
     :: effects_of (process_screenshot w app (Some file_path)))).
  { intros Ha. apply andb_true_iff in Ha. destruct Ha as [Hd He].
    apply negb_true_iff in Hd. now apply on_created_image. }
  assert (Hno : accepted = false -> on_created w app event = (app, [])).
  { intros Ha. apply on_created_other.
    apply andb_false_iff in Ha. destruct Ha as [Hd|He].
    - left. now apply negb_false_iff in Hd.
    - now right. }
  repeat split; auto.
  - intros Hdisp. destruct accepted; [reflexivity|].
    rewrite (Hno eq_refl) in Hdisp. now contradiction Hdisp.
  - intros b. apply on_created_other. now right.
  - intros b. apply on_created_other. now right.
Qed.

(** Lower-casing a name lower-cases its suffix. *)
Lemma suffix_lower (d n : string) :
  suffix (mkPath d (lower n)) = lower (suffix (mkPath d n)).
Proof.
  unfold suffix. cbn [name].
  rewrite rfind_dot_lower, length_lower.
  destruct (rfind "." n) as [i|]; [|reflexivity].
  destruct ((0 <? i)%nat && (i <? String.length n - 1)%nat); [|reflexivity].
  apply drop_lower.
Qed.

Lemma is_sep_lower (c : ascii) : is_sep (lower_char c) = is_sep c.
Proof.
  unfold is_sep. now rewrite !lower_char_is.
Qed.

Lemma rfind_sep_lower (s : string) : rfind_sep (lower s) = rfind_sep s.
Proof.
  induction s as [|c s IH]; simpl; [reflexivity|].
  now rewrite IH, is_sep_lower.
Qed.

(** Lower-casing a path string lower-cases its final component. *)
Lemma of_str_lower (s : string) :
  of_str (lower s) = mkPath (lower (parent (of_str s)))
                            (lower (name (of_str s))).
Proof.
  unfold of_str. rewrite rfind_sep_lower.
  destruct (rfind_sep s) as [i|]; cbn [parent name].
  - now rewrite take_lower, drop_lower.
  - reflexivity.
Qed.

(** C10.  The suffix of a path is lower-cased before it is looked up
    in the allow-list, in the reader and in the watch handler alike:
    for every path the test gives the same answer on the path and on
    the path with its final component lower-cased (for the handler:
    with the whole path string lower-cased).  So [SHOT.PNG] is selected
    by the reader and dispatched by the handler, as [shot.png] is. *)
Theorem image_extension_case_insensitive :
  (forall d n,
     ScreenshotHandlerPy.has_image_extension (mkPath d (lower n))
     = ScreenshotHandlerPy.has_image_extension (mkPath d n)) /\
  (forall d e,
     ScreenshotHandlerPy.is_image_file d e
     = ScreenshotHandlerPy.is_image_file d
         (ScreenshotHandlerPy.mkDirent
            (lower (ScreenshotHandlerPy.d_name e))
            (ScreenshotHandlerPy.d_is_file e)
            (ScreenshotHandlerPy.d_stat e))) /\
  (forall s,
     has_image_extension (of_str (lower s))
     = has_image_extension (of_str s)) /\
  (forall d t,
     fst (ScreenshotHandlerPy.get_latest_screenshot d
            (ScreenshotHandlerPy.DirEntries
               [ScreenshotHandlerPy.mkDirent "SHOT.PNG" true
                  (ScreenshotHandlerPy.StatOk t)]))
     = Some (str (joinpath d "SHOT.PNG")) /\
     fst (ScreenshotHandlerPy.get_latest_screenshot d
            (ScreenshotHandlerPy.DirEntries
               [ScreenshotHandlerPy.mkDirent "shot.png" true
                  (ScreenshotHandlerPy.StatOk t)]))
     = Some (str (joinpath d "shot.png"))) /\
  (forall w app,
     filter is_dispatch
       (effects_of (on_created w app (mkEvent false "SHOT.PNG")))
     = [Dispatch "SHOT.PNG"] /\
     filter is_dispatch
       (effects_of (on_created w app (mkEvent false "shot.png")))
     = [Dispatch "shot.png"]).
Proof.
  assert (H1 : forall d n,
     ScreenshotHandlerPy.has_image_extension (mkPath d (lower n))
     = ScreenshotHandlerPy.has_image_extension (mkPath d n)).
  { intros d n. unfold ScreenshotHandlerPy.has_image_extension.
    now rewrite suffix_lower, lower_idem. }
  repeat split.
  - exact H1.
  - intros d e. unfold ScreenshotHandlerPy.is_image_file, joinpath.
    cbn [ScreenshotHandlerPy.d_name ScreenshotHandlerPy.d_is_file].
    now rewrite H1.
  - intros s. unfold has_image_extension. rewrite of_str_lower.
    destruct (of_str s) as [d n]. cbn [parent name].
    rewrite suffix_lower, lower_idem.
    unfold suffix. reflexivity.
  - rewrite (on_created_image w app (mkEvent false "SHOT.PNG"));
      [|reflexivity|reflexivity].
    unfold effects_of at 1. cbn [snd filter is_dispatch].
    now rewrite process_screenshot_no_dispatch.
  - rewrite (on_created_image w app (mkEvent false "shot.png"));
      [|reflexivity|reflexivity].
    unfold effects_of at 1. cbn [snd filter is_dispatch].
    now rewrite process_screenshot_no_dispatch.
Qed.

Lemma known_backend_false (n : string) :
  known_backend n = false ->
  String.eqb (lower n) "gemini" = false /\
  String.eqb (lower n) "openai" = false /\
  String.eqb (lower n) "anthropic" = false.
Proof.
  unfold known_backend, mem. cbn [existsb].
  rewrite !orb_false_iff. tauto.
Qed.


(** No credential is kept for a name that is no vendor's. *)
Lemma get_api_key_unknown (env : environ) (n : string) :
  known_backend n = false -> get_api_key env n = None.
Proof.
  intros H. destruct (known_backend_false n H) as [Hg [Ho Ha]].
  unfold get_api_key. now rewrite Hg, Ho, Ha.
Qed.


(** The report of a missing key: two lines, the hint if there is one,
    and [sys.exit(1)]. *)
Lemma report_missing_key_exits (n : string) :
  exists hint,
    report_missing_key n = (SysExit 1%Z, (missing_key_lines n ++ hint)%list).
Proof.
  unfold report_missing_key, missing_key_lines.
  destruct (String.eqb n "gemini"); [eexists; reflexivity|].
  destruct (String.eqb n "openai"); [eexists; reflexivity|].
  destruct (String.eqb n "anthropic"); eexists; reflexivity.
Qed.

Lemma initialize_provider_no_key (env : environ) (pk : packages)
  (pn mn : option string) :
  nonempty (get_api_key env (or_else pn (DEFAULT_PROVIDER env))) = None ->
  _initialize_provider env pk pn mn =
  report_missing_key (or_else pn (DEFAULT_PROVIDER env)).
Proof.
  unfold _initialize_provider.
  destruct (get_api_key env _) as [key|]; [|reflexivity].
  cbn [nonempty]. now destruct (String.eqb key "").
Qed.

Lemma initialize_provider_with_key (env : environ) (pk : packages)
  (pn mn : option string) (key : string) :
  nonempty (get_api_key env (or_else pn (DEFAULT_PROVIDER env))) = Some key ->
  let name := or_else pn (DEFAULT_PROVIDER env) in
  let model := or_else mn (get_model env name) in
  _initialize_provider env pk pn mn =
  match create_provider pk name key (Some model) with
  | Returned p =>
      (Proceed p,
       [Print ("Initialized " ++ name ++ " provider with model: " ++ model)])
  | Raised err =>
      (SysExit 1%Z, [Print ("Error initializing provider: " ++ err)])
  end.
Proof.
  intros Hk name model. subst name model.
  apply nonempty_some in Hk. destruct Hk as [Hk Hne].
  unfold _initialize_provider. rewrite Hk.
  apply String.eqb_neq in Hne. rewrite Hne.
  now destruct (create_provider pk _ key _).
Qed.

(** [launch] stops where the construction of the application stops. *)
Lemma launch_exits_early (env : environ) (pk : packages) (w : world)
  (a : args) (out : list effect) (c : Z) :
  _initialize_provider env pk (option_map choice_name (arg_provider a))
    (arg_model a)
  = (SysExit c, out) ->
  launch env pk w a = (SysExit c, out).
Proof.
  intros H. unfold launch, new_app. rewrite H.
  unfold bind, ret. cbn. now rewrite !app_nil_r.
Qed.

(** [main] after a command line the parser accepts, and after one it
    does not. *)
Lemma main_parsed (env : environ) (pk : packages) (w : world)
  (argv : list cli_item) (a : args) :
  parse_args argv = (Proceed a, []) ->
  main env pk w argv = launch env pk w a.
Proof.
  intros H. unfold main. rewrite H. unfold bind.
  now destruct (launch env pk w a).
Qed.

Lemma main_parser_exit (env : environ) (pk : packages) (w : world)
  (argv : list cli_item) (c : Z) (out : list effect) :
  parse_args argv = (SysExit c, out) ->
  main env pk w argv = (SysExit c, out).
Proof.
  intros H. unfold main. rewrite H. unfold bind, ret.
  now rewrite app_nil_r.
Qed.

(** [value in choices], read both ways. *)
Lemma choice_of_spec (value : string) :
  match choice_of value with
  | Some c => value = choice_name c
  | None => ~ In value ["openai"; "gemini"; "anthropic"]
  end.
Proof.
  unfold choice_of.
  destruct (String.eqb_spec value "openai") as [->|Ho]; [reflexivity|].
  destruct (String.eqb_spec value "gemini") as [->|Hg]; [reflexivity|].
  destruct (String.eqb_spec value "anthropic") as [->|Ha]; [reflexivity|].
  intros [H|[H|[H|[]]]]; congruence.
Qed.

Lemma choice_of_name (c : provider_choice) : choice_of (choice_name c) = Some c.
Proof. now destruct c. Qed.

(** Each of the [choices] is a vendor's name. *)
Lemma choice_name_known (c : provider_choice) :
  known_backend (choice_name c) = true.
Proof. now destruct c. Qed.

(** The three ways [parse_args] ends: the arguments, with nothing
    printed and no help asked for; the help, with status 0; a refusal,
    with status 2. *)
Lemma parse_items_cases (items : list cli_item) :
  forall (a : args) (extras : list string),
    (exists a', parse_items items a extras = (Proceed a', []) /\
                ~ In HelpOpt items) \/
    (parse_items items a extras = (SysExit 0%Z, [ParserHelp]) /\
     In HelpOpt items) \/
    (exists reason,
       parse_items items a extras = (SysExit 2%Z, [ParserError reason])).
Proof.
  induction items as [|item rest IH]; intros a extras.
  - destruct extras as [|x extras].
    + left. exists a. split; [reflexivity|]. intros [].
    + right. right. eexists. reflexivity.
  - destruct item as [|value| |value| |argument]; cbn [parse_items].
    + right. left. split; [reflexivity|]. now left.
    + destruct (choice_of value) as [c|].
      * destruct (IH (mkArgs (Some c) (arg_model a)) extras)
          as [[a' [H Hn]]|[[H Hi]|[reason H]]].
        -- left. exists a'. split; [exact H|].
           intros [Hd|Hd]; [discriminate Hd|now apply Hn].
        -- right. left. split; [exact H|]. now right.
        -- right. right. now exists reason.
      * right. right. eexists. reflexivity.
    + right. right. eexists. reflexivity.
    + destruct (IH (mkArgs (arg_provider a) (Some value)) extras)
        as [[a' [H Hn]]|[[H Hi]|[reason H]]].
      * left. exists a'. split; [exact H|].
        intros [Hd|Hd]; [discriminate Hd|now apply Hn].
      * right. left. split; [exact H|]. now right.
      * right. right. now exists reason.
    + right. right. eexists. reflexivity.
    + destruct (IH a (extras ++ [argument])%list)
        as [[a' [H Hn]]|[[H Hi]|[reason H]]].
      * left. exists a'. split; [exact H|].
        intros [Hd|Hd]; [discriminate Hd|now apply Hn].
      * right. left. split; [exact H|]. now right.
      * right. right. now exists reason.
Qed.


(** The provider the parser hands on is the last [--provider] value of
    the line, and it is one of the [choices]. *)
Lemma parse_items_provider (items : list cli_item) :
  forall (a a' : args) (extras : list string),
    parse_items items a extras = (Proceed a', []) ->
    (forall value, In (ProviderOpt value) items ->
                   In value ["openai"; "gemini"; "anthropic"]) /\
    ((forall value, ~ In (ProviderOpt value) items) ->
     arg_provider a' = arg_provider a).
Proof.
  induction items as [|item rest IH]; intros a a' extras H.
  - split; [intros value []|]. intros _.
    cbn [parse_items] in H. destruct extras; [|discriminate H].
    now inversion H.
  - destruct item as [|v| |v| |argument]; cbn [parse_items] in H;
      try discriminate H.
    + destruct (choice_of v) as [c|] eqn:Hv; [|discriminate H].
      destruct (IH _ _ _ H) as [IH1 IH2]. split.
      * intros value [Heq|Hin]; [|now apply IH1].
        inversion Heq; subst v.
        pose proof (choice_of_spec value) as Hs. rewrite Hv in Hs.
        rewrite Hs. destruct c; cbn; auto.
      * intros Hno. exfalso. apply (Hno v). now left.
    + destruct (IH _ _ _ H) as [IH1 IH2]. split.
      * intros value [Heq|Hin]; [discriminate Heq|now apply IH1].
      * intros Hno. rewrite IH2; [reflexivity|].
        intros value Hin. apply (Hno value). now right.
    + destruct (IH _ _ _ H) as [IH1 IH2]. split.
      * intros value [Heq|Hin]; [discriminate Heq|now apply IH1].
      * intros Hno. rewrite IH2; [reflexivity|].
        intros value Hin. apply (Hno value). now right.
Qed.





End MainFacts.

(* ================================================================== *)
(** * The overlay and its timers *)
(* ================================================================== *)

Module UiOverlayFacts.

Import PyStr Trace UiOverlay.
Local Open Scope Z_scope.

(** A show on a window that is ready posts the closure and returns. *)
Lemma show_answer_ready (text : string) (duration : Z) (is_warning : bool)
  (m : AnswerModal) :
  root m = true ->
  show_answer text duration is_warning m =
  (after 0 (Show text duration is_warning) m, []).
Proof. intros H. unfold show_answer. now rewrite H. Qed.

Lemma timers_set_click_through (b : bool) (m : AnswerModal) :
  timers (_set_click_through b m) = timers m /\
  now (_set_click_through b m) = now m.
Proof.
  unfold _set_click_through.
  destruct (no_hwnd m); [now split|]. now destruct b.
Qed.

Lemma timers_position_window (m : AnswerModal) :
  timers (_position_window m) = timers m /\
  now (_position_window m) = now m.
Proof. unfold _position_window. now destruct (root m). Qed.

(** A new timer joins the queue; none leaves it. *)
Lemma insert_timer_keeps (t x : Z * callback) (q : list (Z * callback)) :
  In x q -> In x (insert_timer t q).
Proof.
  induction q as [|y q IH]; intros Hq; [destruct Hq|].
  simpl. destruct (fst t <? fst y).
  - now right.
  - destruct Hq as [->|Hq]; [now left|right; now apply IH].
Qed.

Lemma insert_timer_in (t : Z * callback) (q : list (Z * callback)) :
  In t (insert_timer t q).
Proof.
  induction q as [|y q IH]; simpl; [now left|].
  destruct (fst t <? fst y); [now left|now right].
Qed.

(** The timers after the closure [_show]: those before it, and the
    dismissal it arms. *)
Lemma timers_show (text : string) (duration : Z) (is_warning : bool)
  (m : AnswerModal) :
  root m = true ->
  timers (_show text duration is_warning m) =
  insert_timer (now m + duration * 1000, HideWithClickThrough) (timers m).
Proof.
  intros Hroot. unfold _show. rewrite Hroot. cbn [negb].
  unfold after. cbn [timers set_timers].
  match goal with
  | |- insert_timer (now (_set_click_through true ?m') + _, _)
         (timers (_set_click_through true ?m')) = _ =>
      destruct (timers_set_click_through true m') as [-> ->];
      assert (Hm : timers m' = timers m /\ now m' = now m)
  end.
  { destruct (no_hwnd _); cbn [timers now set_hwnd set_topmost set_viewable];
      destruct (timers_position_window
                  (set_label text
                     (if is_warning then warning_color else text_color) m))
        as [-> ->]; now split. }
  now destruct Hm as [-> ->].
Qed.

(** The closure [_show] arms a dismissal and cancels none: every timer
    that was pending is still pending. *)
Lemma show_keeps_pending_timers (text : string) (duration : Z)
  (is_warning : bool) (m : AnswerModal) (x : Z * callback) :
  In x (timers m) -> In x (timers (_show text duration is_warning m)).
Proof.
  intros Hx. destruct (root m) eqn:Hroot.
  - rewrite timers_show by exact Hroot. now apply insert_timer_keeps.
  - unfold _show. now rewrite Hroot.
Qed.

Lemma insert_timer_elements (t y : Z * callback) (q : list (Z * callback)) :
  In y (insert_timer t q) -> y = t \/ In y q.
Proof.
  induction q as [|x q IH]; simpl.
  - intros [<-|[]]. now left.
  - destruct (fst t <? fst x).
    + intros [<-|H]; [now left|now right].
    + intros [<-|H]; [right; now left|].
      destruct (IH H) as [->|Hq]; [now left|right; now right].
Qed.

Lemma insert_timer_sorted (t : Z * callback) (q : list (Z * callback)) :
  sorted q -> sorted (insert_timer t q).
Proof.
  induction q as [|x q IH]; simpl; [intros _; split; [intros y []|exact I]|].
  intros [Hx Hq]. destruct (Z.ltb_spec (fst t) (fst x)).
  - split; [|now split].
    intros y [<-|Hy]; [lia|]. specialize (Hx y Hy). lia.
  - split; [|now apply IH].
    intros y Hy. destruct (insert_timer_elements _ _ _ Hy) as [->|Hy'];
      [lia|now apply Hx].
Qed.

Lemma pending_work_insert (t : Z * callback) (q : list (Z * callback)) :
  pending_work (insert_timer t q) = (weight (snd t) + pending_work q)%nat.
Proof.
  induction q as [|x q IH]; simpl; [reflexivity|].
  destruct (fst t <? fst x); simpl; [reflexivity|].
  rewrite IH. lia.
Qed.

Lemma timers_hide (m : AnswerModal) : timers (_hide m) = timers m.
Proof.
  unfold _hide. destruct (root m); [|reflexivity].
  cbn [timers set_viewable]. apply timers_set_click_through.
Qed.

(** Firing a callback keeps the queue in order and uses up work. *)
Lemma run_callback_progress (cb : callback) (m : AnswerModal) :
  sorted (timers m) ->
  sorted (timers (run_callback cb m)) /\
  (S (pending_work (timers (run_callback cb m)))
   <= weight cb + pending_work (timers m))%nat.
Proof.
  intros Hs. destruct cb as [text duration is_warning| |]; cbn [run_callback].
  - destruct (root m) eqn:Hroot.
    + rewrite timers_show by exact Hroot. split.
      * now apply insert_timer_sorted.
      * rewrite pending_work_insert. simpl. lia.
    + unfold _show. rewrite Hroot. cbn [negb]. split; [exact Hs|simpl; lia].
  - unfold _hide_with_click_through. destruct (root m).
    + unfold after. cbn [timers set_timers]. split.
      * now apply insert_timer_sorted.
      * rewrite pending_work_insert. simpl. lia.
    + split; [exact Hs|simpl; lia].
  - rewrite timers_hide. split; [exact Hs|simpl; lia].
Qed.

Lemma weight_positive (cb : callback) : (1 <= weight cb)%nat.
Proof. destruct cb; simpl; lia. Qed.

(** With the fuel [mainloop_until] takes, the loop does not stop short:
    it returns once no timer is left that was due by [t]. *)
Lemma mainloop_fuel_settled (fuel : nat) (t : Z) (m : AnswerModal) :
  sorted (timers m) ->
  (pending_work (timers m) <= fuel)%nat ->
  settled t (mainloop_fuel fuel t m) = true.
Proof.
  revert m; induction fuel as [|fuel IH]; intros m Hs Hw.
  - cbn [mainloop_fuel]. unfold settled. cbn [timers set_now].
    destruct (timers m) as [|[due cb] q]; [reflexivity|].
    simpl in Hw. pose proof (weight_positive cb). lia.
  - cbn [mainloop_fuel].
    destruct (timers m) as [|[due cb] q] eqn:Hq.
    + unfold settled. cbn [timers set_now]. now rewrite Hq.
    + destruct (Z.leb_spec due t) as [Hdue|Hdue].
      * destruct Hs as [_ Hs].
        destruct (run_callback_progress cb
                    (set_now (Z.max (now m) due) (set_timers q m)) Hs)
          as [Hs' Hw'].
        apply IH; [exact Hs'|].
        cbn [timers set_now set_timers] in Hw'. simpl in Hw. lia.
      * unfold settled. cbn [timers set_now]. rewrite Hq.
        apply forallb_forall. intros x Hx. apply Z.ltb_lt.
        destruct Hx as [<-|Hx]; [simpl; lia|].
        destruct Hs as [Hle _]. specialize (Hle x Hx). simpl in Hle. lia.
Qed.

Lemma mainloop_until_settled (t : Z) (m : AnswerModal) :
  sorted (timers m) -> settled t (mainloop_until t m) = true.
Proof.
  intros Hs. unfold mainloop_until. now apply mainloop_fuel_settled.
Qed.

(** C5.  [show_answer("X", 5)] at time 0 and, one millisecond later,
    [show_answer("Y", 5, is_warning=True)], on a window that is ready.
    Once the second closure has run, the label reads [Y] in the warning
    colour and the window is on screen; but the dismissal armed by the
    first call is still pending, next to the one armed by the second
    call.  It fires at 5000 ms and withdraws the window, 4999 ms after
    the second call, while the second call asked for 5000 ms.  With
    the second call 3000 ms after the first, the window showing [Y] is
    withdrawn after 2000 ms.  In each run the loop has fired every
    timer that was due. *)
Theorem second_show_dismissed_by_first_timer :
  let m0 := new_modal 0 77 1080 in
  let m1 := value_of (show_answer "X" 5 false m0) in
  let m2 := value_of (show_answer "Y" 5 true (mainloop_until 1 m1)) in
  let shown := mainloop_until 1 m2 in
  let late := value_of (show_answer "Y" 5 true (mainloop_until 3000 m1)) in
  (label_text shown = "Y" /\ label_fg shown = warning_color /\
   viewable shown = true) /\
  timers shown = [(5000, HideWithClickThrough); (5001, HideWithClickThrough)] /\
  viewable (mainloop_until 4999 m2) = true /\
  viewable (mainloop_until 5000 m2) = false /\
  timers (mainloop_until 5000 m2) = [(5001, HideWithClickThrough)] /\
  (label_text (mainloop_until 3000 late) = "Y" /\
   viewable (mainloop_until 4999 late) = true /\
   viewable (mainloop_until 5000 late) = false /\
   timers (mainloop_until 5000 late) = [(8000, HideWithClickThrough)]) /\
  (settled 1 shown = true /\ settled 5000 (mainloop_until 5000 m2) = true /\
   settled 5000 (mainloop_until 5000 late) = true).
Proof. vm_compute. repeat split; reflexivity. Qed.

End UiOverlayFacts.

(* ================================================================== *)
(** * More on the image source reader *)
(* ================================================================== *)

Module ReaderExtras.

Import PyStr Pathlib ScreenshotHandlerPy PyStrFacts ScreenshotHandlerFacts.
Local Open Scope Z_scope.

(** [max] settles a tie for the element met first: an element that
    beats everything before it and loses to nothing after it is the
    one returned. *)
Lemma max_by_key_first (ks : list (dirent * Z)) :
  forall (k x : dirent * Z) (pre post : list (dirent * Z)),
    k :: ks = (pre ++ x :: post)%list ->
    (forall y, In y pre -> snd y < snd x) ->
    (forall y, In y post -> snd y <= snd x) ->
    max_by_key k ks = x.
Proof.
  induction ks as [|y ks IH]; intros k x pre post Heq Hpre Hpost.
  - destruct pre as [|p pre]; simpl in Heq.
    + now inversion Heq.
    + inversion Heq. now destruct pre.
  - cbn [max_by_key]. destruct pre as [|p pre]; simpl in Heq.
    + inversion Heq; subst x post.
      destruct (Z.ltb_spec (snd k) (snd y)) as [Hlt|Hge].
      * specialize (Hpost y (or_introl eq_refl)). lia.
      * apply (IH k k [] ks); [reflexivity|intros z []|].
        intros z Hz. apply Hpost. now right.
    + inversion Heq; subst p. clear Heq.
      destruct (Z.ltb_spec (snd k) (snd y)) as [Hlt|Hge].
      * apply (IH y x pre post); [assumption| |assumption].
        intros z Hz. apply Hpre. now right.
      * destruct pre as [|p' pre]; simpl in H1.
        -- inversion H1; subst y.
           specialize (Hpre k (or_introl eq_refl)). lia.
        -- inversion H1; subst p'. rewrite <- H2.
           apply (IH k x (k :: pre) post); [now simpl; f_equal| |assumption].
           intros z [<-|Hz]; apply Hpre; [now left|now right; right].
Qed.

Lemma stat_all_app (a b : list dirent) (ra rb : list (dirent * Z)) :
  stat_all a = Returned ra -> stat_all b = Returned rb ->
  stat_all (a ++ b) = Returned (ra ++ rb)%list.
Proof.
  revert ra; induction a as [|e a IH]; intros ra Ha Hb; simpl in *.
  - inversion Ha. exact Hb.
  - destruct (d_stat e) as [t|err]; [|discriminate].
    destruct (stat_all a) as [r|err]; [|discriminate].
    inversion Ha. now rewrite (IH r eq_refl Hb).
Qed.

(** The keys of files whose [stat] succeeds, with a bound they share. *)
Lemma stat_all_bounded (P : Z -> Prop) (l : list dirent) :
  (forall e, In e l -> exists t, d_stat e = StatOk t /\ P t) ->
  exists r, stat_all l = Returned r /\ forall y, In y r -> P (snd y).
Proof.
  induction l as [|e l IH]; intros H; simpl.
  - exists []. split; [reflexivity|intros y []].
  - destruct (H e (or_introl eq_refl)) as [t [-> Ht]].
    destruct IH as [r [-> Hr]]; [intros e' He'; apply H; now right|].
    eexists. split; [reflexivity|].
    intros y [<-|Hy]; [exact Ht|now apply Hr].
Qed.

(** X1.  Ties go to the file listed first: the matching file that is
    newer than every matching file listed before it and at least as new
    as every matching file listed after it is the one returned. *)
Theorem get_latest_screenshot_first_among_newest (d : string)
  (l1 l2 : list dirent) (e : dirent) (t : Z)
  (He : is_image_file d e = true)
  (Ht : d_stat e = StatOk t)
  (Hbefore : forall e', In e' l1 -> is_image_file d e' = true ->
                        exists t', d_stat e' = StatOk t' /\ t' < t)
  (Hafter : forall e', In e' l2 -> is_image_file d e' = true ->
                       exists t', d_stat e' = StatOk t' /\ t' <= t) :
  get_latest_screenshot d (DirEntries (l1 ++ e :: l2))
  = (Some (str (joinpath d (d_name e))), []).
Proof.
  assert (Himg : image_files d (l1 ++ e :: l2)
                 = (image_files d l1 ++ e :: image_files d l2)%list).
  { unfold image_files. rewrite filter_app. cbn [filter]. now rewrite He. }
  unfold get_latest_screenshot, get_latest_screenshot_body. rewrite Himg.
  destruct (stat_all_bounded (fun t' => t' < t) (image_files d l1))
    as [r1 [Hr1 Hb1]].
  { intros e' He'. apply image_files_in in He'. now apply Hbefore. }
  destruct (stat_all_bounded (fun t' => t' <= t) (image_files d l2))
    as [r2 [Hr2 Hb2]].
  { intros e' He'. apply image_files_in in He'. now apply Hafter. }
  assert (Hs : stat_all (image_files d l1 ++ e :: image_files d l2)
               = Returned (r1 ++ (e, t) :: r2)%list).
  { apply stat_all_app; [exact Hr1|]. simpl. now rewrite Ht, Hr2. }
  destruct (image_files d l1 ++ e :: image_files d l2)%list eqn:Hnil.
  - now destruct (image_files d l1).
  - rewrite Hs.
    destruct (r1 ++ (e, t) :: r2)%list as [|k ks] eqn:Hk.
    + now destruct r1.
    + now rewrite (max_by_key_first ks k (e, t) r1 r2 (eq_sym Hk) Hb1 Hb2).
Qed.

Lemma get_latest_first_among_newest_witness :
  let d := "C:\shots" in
  let e := mkDirent "b.PNG" true (StatOk 200) in
  let l1 := [mkDirent "a.png" true (StatOk 100);
             mkDirent "notes.txt" true (StatOk 900)] in
  let l2 := [mkDirent "c.jpg" true (StatOk 200);
             mkDirent "old.gif" true (StatOk 5)] in
  get_latest_screenshot d (DirEntries (l1 ++ e :: l2))
  = (Some "C:\shots\b.PNG", []).
Proof.
  intros d e l1 l2.
  apply (get_latest_screenshot_first_among_newest d l1 l2 e 200);
    try reflexivity.
  - intros e' [<-|[<-|[]]] Hi; [|discriminate Hi].
    exists 100. split; [reflexivity|lia].
  - intros e' [<-|[<-|[]]] Hi.
    + exists 200. split; [reflexivity|lia].
    + exists 5. split; [reflexivity|lia].
Defined.

Lemma stat_all_raised (l : list dirent) (e : dirent) (err0 : string) :
  In e l -> d_stat e = StatError err0 ->
  exists e' err, In e' l /\ d_stat e' = StatError err /\
                 stat_all l = Raised err.
Proof.
  induction l as [|x l IH]; intros Hin He; [destruct Hin|].
  simpl. destruct (d_stat x) as [t|err] eqn:Hx.
  - destruct Hin as [->|Hin]; [congruence|].
    destruct (IH Hin He) as [e' [err [H1 [H2 H3]]]].
    exists e', err. rewrite H3. repeat split; simpl; auto.
  - exists x, err. repeat split; simpl; auto.
Qed.

(** X2.  One matching file whose [stat] raises is enough for no result:
    the reader prints the error of a matching file and returns [None],
    however many other matching files there are. *)
Theorem get_latest_screenshot_stat_error (d : string) (l : list dirent)
  (e : dirent) (err0 : string)
  (Hin : In e l)
  (He : is_image_file d e = true)
  (Hstat : d_stat e = StatError err0) :
  exists e' err,
    In e' l /\ is_image_file d e' = true /\ d_stat e' = StatError err /\
    get_latest_screenshot d (DirEntries l)
    = (None, ["Error getting latest screenshot: " ++ err]).
Proof.
  assert (Hf : In e (image_files d l)) by (apply image_files_in; now split).
  destruct (stat_all_raised _ e err0 Hf Hstat) as [e' [err [H1 [H2 H3]]]].
  apply image_files_in in H1. destruct H1 as [H1 H1'].
  exists e', err. repeat split; auto.
  unfold get_latest_screenshot, get_latest_screenshot_body.
  destruct (image_files d l) as [|f fs]; [destruct Hf|].
  now rewrite H3.
Qed.

Lemma get_latest_stat_error_witness :
  let l := [mkDirent "a.png" true (StatOk 100);
            mkDirent "gone.png" true (StatError "[WinError 2] gone.png");
            mkDirent "b.png" true (StatOk 300)] in
  exists e' err,
    In e' l /\ is_image_file "dir" e' = true /\ d_stat e' = StatError err /\
    get_latest_screenshot "dir" (DirEntries l)
    = (None, ["Error getting latest screenshot: " ++ err]).
Proof.
  intros l.
  apply (get_latest_screenshot_stat_error "dir" l
           (mkDirent "gone.png" true (StatError "[WinError 2] gone.png"))
           "[WinError 2] gone.png").
  - right. left. reflexivity.
  - reflexivity.
  - reflexivity.
Defined.

(** A path comes without a printed line. *)
Lemma get_latest_screenshot_quiet (d : string) (st : dir_state) (r : string) :
  fst (get_latest_screenshot d st) = Some r ->
  get_latest_screenshot d st = (Some r, []).
Proof.
  unfold get_latest_screenshot.
  destruct (get_latest_screenshot_body d st) as [res|err]; simpl.
  - now intros ->.
  - discriminate.
Qed.

Lemma image_files_perm (d : string) (l l' : list dirent) (e : dirent) :
  Permutation l l' -> In e (image_files d l) -> In e (image_files d l').
Proof.
  intros Hp He. apply image_files_in in He. destruct He as [H1 H2].
  apply image_files_in. split; [|exact H2].
  now apply (Permutation_in _ Hp).
Qed.

(** X3.  The order in which the directory lists its entries does not
    matter when the time stamps of the matching files can all be read
    and no two matching files bear the same one. *)
Theorem get_latest_screenshot_order_independent (d : string)
  (l l' : list dirent)
  (Hperm : Permutation l l')
  (Hstat : forall e, In e l -> is_image_file d e = true ->
                     exists t, d_stat e = StatOk t)
  (Hdistinct : forall e1 e2 t,
     In e1 l -> In e2 l ->
     is_image_file d e1 = true -> is_image_file d e2 = true ->
     d_stat e1 = StatOk t -> d_stat e2 = StatOk t -> e1 = e2) :
  get_latest_screenshot d (DirEntries l)
  = get_latest_screenshot d (DirEntries l').
Proof.
  destruct (image_files d l) as [|f fs] eqn:Hf.
  - assert (Hf' : image_files d l' = []).
    { destruct (image_files d l') as [|f' fs'] eqn:Hf'; [reflexivity|].
      assert (H : In f' (image_files d l)).
      { apply (image_files_perm d l' l); [now apply Permutation_sym|].
        rewrite Hf'. now left. }
      rewrite Hf in H. destruct H. }
    unfold get_latest_screenshot, get_latest_screenshot_body.
    now rewrite Hf, Hf'.
  - assert (Hne : image_files d l <> []) by (rewrite Hf; discriminate).
    assert (Hst : forall e, In e (image_files d l) ->
                            exists t, d_stat e = StatOk t).
    { intros e He. apply image_files_in in He. destruct He. now apply Hstat. }
    destruct (get_latest_screenshot_complete d l Hne Hst) as [r Hr].
    rewrite (get_latest_screenshot_quiet _ _ _ Hr).
    destruct (get_latest_screenshot_sound d _ r Hr)
      as [l0 [e [t [Hl [H1 [H2 [H3 [H4 [H5 H6]]]]]]]]].
    inversion Hl; subst l0; clear Hl.
    assert (Hi : is_image_file d e = true)
      by (apply is_image_file_iff; now split).
    symmetry. apply get_latest_screenshot_quiet. rewrite H5.
    apply (get_latest_screenshot_distinct d l' e t);
      [now apply (Permutation_in _ Hperm)|exact Hi|exact H4|].
    intros e' He' Hi' Hd.
    assert (He'l : In e' l)
      by (apply (Permutation_in _ (Permutation_sym Hperm)); exact He').
    destruct (H6 e' He'l Hi') as [t' [Ht' Hle]].
    exists t'. split; [exact Ht'|].
    destruct (Z.eq_dec t' t) as [->|Hneq]; [|lia].
    exfalso. apply Hd. now apply (Hdistinct e' e t).
Qed.

Lemma get_latest_order_independent_witness :
  let a := mkDirent "a.png" true (StatOk 100) in
  let b := mkDirent "b.jpg" true (StatOk 200) in
  let c := mkDirent "c.txt" true (StatError "locked") in
  get_latest_screenshot "dir" (DirEntries [a; b; c])
  = get_latest_screenshot "dir" (DirEntries [b; c; a]).
Proof.
  intros a b c.
  apply (get_latest_screenshot_order_independent "dir" [a; b; c] [b; c; a]).
  - change (Permutation (a :: [b; c]) ([b; c] ++ a :: [])).
    apply Permutation_cons_app. rewrite app_nil_r. apply Permutation_refl.
  - intros e [<-|[<-|[<-|[]]]] Hi; [now exists 100|now exists 200|].
    discriminate Hi.
  - intros e1 e2 t [<-|[<-|[<-|[]]]] [<-|[<-|[<-|[]]]] _ _ H1 H2;
      try reflexivity; try discriminate H1; inversion H1; subst;
      discriminate H2.
Defined.

Lemma string_length_app (a b : string) :
  String.length (a ++ b) = (String.length a + String.length b)%nat.
Proof. induction a as [|c a IH]; simpl; [reflexivity|now rewrite IH]. Qed.

Lemma substring_all (b : string) : substring 0 (String.length b) b = b.
Proof. induction b as [|c b IH]; simpl; [reflexivity|now rewrite IH]. Qed.

(** [(a + b)[len(a):] == b]. *)
Lemma drop_app (a b : string) : drop (String.length a) (a ++ b) = b.
Proof.
  unfold drop. rewrite string_length_app.
  replace (String.length a + String.length b - String.length a)%nat
    with (String.length b) by lia.
  induction a as [|c a IH]; simpl; [apply substring_all|exact IH].
Qed.

(** Where [rfind] finds the character, it is the last one there. *)
Lemma rfind_some (c : ascii) (s : string) (i : nat) :
  rfind c s = Some i ->
  exists a b, s = a ++ String c b /\ String.length a = i /\
              rfind c b = None.
Proof.
  revert i; induction s as [|x s IH]; intros i; simpl; [discriminate|].
  destruct (rfind c s) as [j|] eqn:Hr.
  - intros H; inversion H; subst i.
    destruct (IH j eq_refl) as [a [b [-> [Hl Hb]]]].
    exists (String x a), b. simpl. now rewrite Hl.
  - destruct (Ascii.eqb_spec x c) as [->|Hne]; [|discriminate].
    intros H; inversion H; subst i. now exists "", s.
Qed.

Lemma rfind_last (c : ascii) (a b : string) :
  rfind c b = None ->
  rfind c (a ++ String c b) = Some (String.length a).
Proof.
  intros Hb. induction a as [|x a IH]; simpl.
  - now rewrite Hb, Ascii.eqb_refl.
  - now rewrite IH.
Qed.

Lemma mem_dotted (x : string) :
  mem (String "." x) image_extensions = mem x bare_extensions.
Proof. reflexivity. Qed.

(** An extension of the allow-list, in any case, is not empty and holds
    no dot. *)
Lemma bare_extension_shape (ext : string) :
  mem (lower ext) bare_extensions = true ->
  rfind "." ext = None /\ (1 <= String.length ext)%nat.
Proof.
  intros H. rewrite <- rfind_dot_lower, <- (length_lower ext).
  unfold mem, bare_extensions in H. cbn [existsb] in H.
  repeat match type of H with
         | (_ || _)%bool = true => apply orb_true_iff in H; destruct H as [H|H]
         end;
    try discriminate H;
    apply String.eqb_eq in H; rewrite H; simpl; split; auto; lia.
Qed.

(** The names with an image extension. *)
Lemma image_name_shape (d n : string) :
  has_image_extension (mkPath d n) = true <->
  exists stem ext,
    n = stem ++ "." ++ ext /\ stem <> "" /\
    mem (lower ext) bare_extensions = true.
Proof.
  unfold has_image_extension, suffix. cbn [name]. split.
  - destruct (rfind "." n) as [i|] eqn:Hr; [|discriminate].
    destruct (rfind_some _ _ _ Hr) as [a [b [-> [Hl Hb]]]].
    destruct ((0 <? i)%nat) eqn:Hpos; [|discriminate].
    destruct ((i <? _)%nat); [|discriminate].
    rewrite <- Hl, drop_app. cbn [andb lower].
    change (lower_char ".") with "."%char. rewrite mem_dotted.
    intros Hm. exists a, b. repeat split; auto.
    intros ->. simpl in Hl. subst i. discriminate Hpos.
  - intros [stem [ext [-> [Hstem Hext]]]].
    destruct (bare_extension_shape ext Hext) as [Hdot Hlen].
    change (stem ++ "." ++ ext) with (stem ++ String "." ext).
    rewrite (rfind_last "." stem ext Hdot), string_length_app.
    cbn [String.length].
    replace ((0 <? String.length stem)%nat) with true.
    2:{ symmetry. apply Nat.ltb_lt. destruct stem; [contradiction|simpl; lia]. }
    replace ((String.length stem <? String.length stem + S (String.length ext) - 1)%nat)
      with true by (symmetry; apply Nat.ltb_lt; lia).
    cbn [andb]. rewrite drop_app. cbn [lower].
    change (lower_char ".") with "."%char. now rewrite mem_dotted.
Qed.

(** X4.  The names the program takes for images are exactly those of
    the form [stem.ext] with a non-empty stem and with [ext], in any
    letter case, one of png, jpg, jpeg, bmp, gif, webp; a name that is
    only an extension, such as [.png], is not one.  This is the test of
    the reader on every entry, and the test of the watch handler on the
    final component of the path of every event that is not for a
    directory. *)
Theorem has_image_extension_iff :
  (forall d n,
     has_image_extension (mkPath d n) = true <->
     exists stem ext,
       n = stem ++ "." ++ ext /\ stem <> "" /\
       mem (lower ext) bare_extensions = true) /\
  (forall event,
     Main.accepts event = true <->
     Main.is_directory event = false /\
     exists stem ext,
       name (of_str (Main.src_path event)) = stem ++ "." ++ ext /\
       stem <> "" /\ mem (lower ext) bare_extensions = true).
Proof.
  split; [exact image_name_shape|].
  intros event. unfold Main.accepts.
  rewrite andb_true_iff, negb_true_iff.
  destruct (of_str (Main.src_path event)) as [d n]. cbn [name].
  change (Main.has_image_extension (mkPath d n))
    with (has_image_extension (mkPath d n)).
  now rewrite image_name_shape.
Qed.

(** What [Path(s)] makes of a directory, a backslash and a name. *)
Lemma rfind_sep_last (a b : string) :
  rfind_sep b = None ->
  rfind_sep (a ++ String "\" b) = Some (String.length a).
Proof.
  intros Hb. induction a as [|x a IH]; simpl.
  - now rewrite Hb.
  - now rewrite IH.
Qed.

Lemma take_app (a b : string) : take (String.length a) (a ++ b) = a.
Proof.
  unfold take. induction a as [|c a IH]; simpl.
  - now destruct b.
  - now rewrite IH.
Qed.

Lemma of_str_join (d n : string) :
  rfind_sep n = None ->
  of_str (d ++ "\" ++ n) = mkPath d n.
Proof.
  intros Hn. unfold of_str.
  change (d ++ "\" ++ n) with (d ++ String "\" n).
  rewrite (rfind_sep_last d n Hn), take_app. f_equal.
  change (S (String.length d)) with (1 + String.length d)%nat.
  replace (1 + String.length d)%nat with (String.length (d ++ "\")).
  - rewrite <- (drop_app (d ++ "\") n) at 2.
    now rewrite string_app_assoc.
  - rewrite string_length_app. simpl. lia.
Qed.

End ReaderExtras.

(* ================================================================== *)
(** * More on the adapters and on the configuration *)
(* ================================================================== *)

Module AdapterExtras.

Import PyStr Trace AiProviders ConfigPy Main.
Import PyStrFacts AiProvidersFacts MainFacts.

Lemma any_in_app (l1 l2 : list string) (s : string) :
  any_in (l1 ++ l2) s = any_in l1 s || any_in l2 s.
Proof. unfold any_in. apply existsb_app. Qed.

(** The keyword [rate_limit] adds nothing to a list that holds [limit]. *)
Lemma anthropic_keywords_as_gemini (s : string) :
  any_in anthropic_billing_keywords s = any_in gemini_billing_keywords s.
Proof.
  change anthropic_billing_keywords
    with (gemini_billing_keywords ++ ["rate_limit"])%list.
  rewrite any_in_app.
  destruct (any_in gemini_billing_keywords s) eqn:Hg; [reflexivity|].
  cbn [orb any_in existsb]. rewrite orb_false_r.
  destruct (contains "rate_limit" s) eqn:Hr; [|reflexivity].
  rewrite <- Hg. symmetry.
  apply (any_in_intro _ "limit"); [simpl; tauto|].
  apply (contains_trans _ "rate_limit"); [reflexivity|exact Hr].
Qed.

Lemma gemini_keywords_in_openai (s : string) :
  any_in gemini_billing_keywords s = true ->
  any_in openai_billing_keywords s = true.
Proof.
  unfold any_in. rewrite !existsb_exists. intros [k [Hk Hc]].
  exists k. split; [|exact Hc].
  simpl in Hk. simpl. intuition.
Qed.

Lemma snd_process_image_fails (self : AIProvider) (e : exn) :
  snd (value_of (process_image self (Fails e))) <> None <->
  billing_detected self e = true.
Proof.
  rewrite process_image_fails.
  destruct (billing_detected self e); simpl; split; congruence.
Qed.

(** X5.  On the same exception the Anthropic adapter warns exactly when
    the Gemini adapter does (its extra keyword [rate_limit] contains
    [limit]), and the OpenAI adapter warns whenever the Gemini adapter
    does. *)
Theorem adapters_agree_on_billing (k1 m1 k2 m2 k3 m3 : string) (e : exn) :
  (snd (value_of (process_image (AnthropicProvider k1 m1) (Fails e))) <> None
   <-> snd (value_of (process_image (GeminiProvider k2 m2) (Fails e))) <> None)
  /\
  (snd (value_of (process_image (GeminiProvider k2 m2) (Fails e))) <> None
   -> snd (value_of (process_image (OpenAIProvider k3 m3) (Fails e))) <> None).
Proof.
  rewrite !snd_process_image_fails.
  unfold billing_detected, billing_keywords, openai_is_billing_error.
  rewrite anthropic_keywords_as_gemini. split; [tauto|].
  intros Hg. rewrite (gemini_keywords_in_openai _ Hg).
  now rewrite orb_true_r.
Qed.

(** X6.  The classification looks at the message and at the class name
    through [lower] only: two exceptions that differ in nothing but the
    letter case of these, and give the same error code, get the same
    answer from every adapter. *)
Theorem classification_ignores_letter_case (self : AIProvider)
  (e e' : exn)
  (Hs : lower (exn_str e) = lower (exn_str e'))
  (Ht : lower (exn_type_name e) = lower (exn_type_name e'))
  (Hc : openai_error_code e = openai_error_code e') :
  value_of (process_image self (Fails e))
  = value_of (process_image self (Fails e')).
Proof.
  rewrite !process_image_fails.
  replace (billing_detected self e') with (billing_detected self e);
    [reflexivity|].
  destruct self; unfold billing_detected, openai_is_billing_error;
    now rewrite ?Hs, ?Ht, ?Hc.
Qed.

Lemma classification_letter_case_witness :
  let e := mkExn "RateLimitError" "Monthly QUOTA reached" None None in
  let e' := mkExn "ratelimiterror" "monthly quota REACHED" None
                  (Some PyNone) in
  value_of (process_image (GeminiProvider "k" "m") (Fails e))
  = value_of (process_image (GeminiProvider "k" "m") (Fails e')).
Proof.
  intros e e'.
  apply (classification_ignores_letter_case (GeminiProvider "k" "m") e e');
    reflexivity.
Defined.

(** The factory's own default is never empty, so neither is the model
    it builds with. *)
Lemma or_else_nonempty (x : option string) (d : string) :
  d <> "" -> or_else x d <> "".
Proof.
  intros Hd. destruct x as [s|]; simpl; [|exact Hd].
  destruct (String.eqb_spec s ""); [exact Hd|assumption].
Qed.

(** What the factory returns when it returns. *)
Lemma create_provider_returned (pk : packages) (n key : string)
  (model : option string) (p : AIProvider) :
  create_provider pk n key model = Returned p ->
  vendor_name p = lower n /\ provider_api_key p = key /\
  provider_model p <> "".
Proof.
  unfold create_provider, new_GeminiProvider, new_OpenAIProvider,
    new_AnthropicProvider.
  destruct (String.eqb_spec (lower n) "gemini") as [Hg|_].
  { destruct (genai_imported pk); [|discriminate].
    intros H; inversion H; subst p. cbn. repeat split; auto.
    now apply or_else_nonempty. }
  destruct (String.eqb_spec (lower n) "openai") as [Ho|_].
  { destruct (openai_imported pk); [|discriminate].
    intros H; inversion H; subst p. cbn. repeat split; auto.
    now apply or_else_nonempty. }
  destruct (String.eqb_spec (lower n) "anthropic") as [Ha|_];
    [|discriminate].
  destruct (anthropic_imported pk); [|discriminate].
  intros H; inversion H; subst p. cbn. repeat split; auto.
  now apply or_else_nonempty.
Qed.

(** With every package imported the factory fails on unknown names only. *)
Lemma create_provider_known (pk : packages) (n key : string)
  (model : option string) :
  genai_imported pk = true -> openai_imported pk = true ->
  anthropic_imported pk = true -> known_backend n = true ->
  exists p, create_provider pk n key model = Returned p.
Proof.
  intros Hg Ho Ha Hk.
  unfold create_provider, new_GeminiProvider, new_OpenAIProvider,
    new_AnthropicProvider. rewrite Hg, Ho, Ha.
  unfold known_backend, mem in Hk. cbn [existsb] in Hk.
  destruct (String.eqb (lower n) "gemini"); [eexists; reflexivity|].
  destruct (String.eqb (lower n) "openai"); [eexists; reflexivity|].
  destruct (String.eqb (lower n) "anthropic"); [eexists; reflexivity|].
  discriminate Hk.
Qed.

(** A name with a credential is a vendor's name. *)
Lemma get_api_key_known (env : environ) (n key : string) :
  get_api_key env n = Some key -> known_backend n = true.
Proof.
  intros H. destruct (known_backend n) eqn:Hk; [reflexivity|].
  rewrite (get_api_key_unknown env n Hk) in H. discriminate H.
Qed.

(** X7.  [validate_config] predicts the start: where it rejects the
    configuration, [_initialize_provider] prints the missing-key lines
    and exits with status 1; where it accepts it and the vendor
    packages are installed, [_initialize_provider] builds the adapter
    of the vendor named (in whatever letter case), holding the
    configured key and a model name that is not empty. *)
Theorem validate_config_predicts_startup (env : environ) (pk : packages)
  (pn mn : option string) :
  let name := or_else pn (DEFAULT_PROVIDER env) in
  (fst (validate_config env pn) = false ->
   exists hint,
     _initialize_provider env pk pn mn
     = (SysExit 1%Z, (missing_key_lines name ++ hint)%list)) /\
  (fst (validate_config env pn) = true ->
   genai_imported pk = true -> openai_imported pk = true ->
   anthropic_imported pk = true ->
   exists p,
     value_of (_initialize_provider env pk pn mn) = Proceed p /\
     vendor_name p = lower name /\
     get_api_key env name = Some (provider_api_key p) /\
     provider_api_key p <> "" /\
     provider_model p <> "").
Proof.
  intros name. unfold validate_config. fold name.
  rewrite nonempty_truthy.
  destruct (nonempty (get_api_key env name)) as [key|] eqn:Hk;
    cbn [negb fst]; split; try discriminate.
  - intros _ Hg Ho Ha.
    rewrite (initialize_provider_with_key env pk pn mn key Hk).
    fold name. apply nonempty_some in Hk. destruct Hk as [Hk Hne].
    destruct (create_provider_known pk name key
                (Some (or_else mn (get_model env name))) Hg Ho Ha
                (get_api_key_known env name key Hk)) as [p Hp].
    rewrite Hp. exists p.
    destruct (create_provider_returned _ _ _ _ _ Hp) as [H1 [H2 H3]].
    rewrite H2. repeat split; auto.
  - intros _. destruct (report_missing_key_exits name) as [hint Hh].
    exists hint. rewrite initialize_provider_no_key by exact Hk.
    exact Hh.
Qed.

(** X8.  The default model names are written down twice, in
    [config.py] and in the factory; as long as the environment
    overrides none of them, both places name the same models, so
    handing the factory the configured model or no model at all builds
    the same adapter. *)
Theorem default_models_agree (env : environ) (pk : packages)
  (n key : string)
  (Hg : env "GEMINI_MODEL" = None)
  (Ho : env "OPENAI_MODEL" = None)
  (Ha : env "ANTHROPIC_MODEL" = None) :
  create_provider pk n key (Some (get_model env n))
  = create_provider pk n key None.
Proof.
  unfold create_provider, get_model, GEMINI_MODEL, OPENAI_MODEL,
    ANTHROPIC_MODEL, getenv_default. rewrite Hg, Ho, Ha.
  destruct (String.eqb (lower n) "gemini"); [reflexivity|].
  destruct (String.eqb (lower n) "openai"); [reflexivity|].
  destruct (String.eqb (lower n) "anthropic"); reflexivity.
Qed.

Lemma default_models_agree_witness :
  let env : environ :=
    fun k => if String.eqb k "OPENAI_API_KEY" then Some "sk-1" else None in
  let pk := mkPackages true true true in
  create_provider pk "OpenAI" "sk-1" (Some (get_model env "OpenAI"))
  = create_provider pk "OpenAI" "sk-1" None.
Proof.
  intros env pk.
  apply (default_models_agree env pk "OpenAI" "sk-1"); reflexivity.
Defined.

(** X9.  A provider named on the command line takes precedence over
    [DEFAULT_PROVIDER]: with a non-empty name given, the start does not
    depend on that variable. *)
Theorem command_line_provider_overrides_default (env env' : environ)
  (pk : packages) (n : string) (mn : option string)
  (Hn : n <> "")
  (Henv : forall k, k <> "DEFAULT_PROVIDER" -> env k = env' k) :
  _initialize_provider env pk (Some n) mn
  = _initialize_provider env' pk (Some n) mn.
Proof.
  unfold _initialize_provider. cbn [or_else].
  apply String.eqb_neq in Hn. rewrite Hn.
  unfold get_api_key, get_model, GEMINI_API_KEY, OPENAI_API_KEY,
    ANTHROPIC_API_KEY, GEMINI_MODEL, OPENAI_MODEL, ANTHROPIC_MODEL,
    getenv_default.
  rewrite (Henv "GEMINI_API_KEY"), (Henv "OPENAI_API_KEY"),
    (Henv "ANTHROPIC_API_KEY"), (Henv "GEMINI_MODEL"),
    (Henv "OPENAI_MODEL"), (Henv "ANTHROPIC_MODEL") by discriminate.
  reflexivity.
Qed.

Lemma command_line_provider_witness :
  let env : environ := fun k =>
    if String.eqb k "GEMINI_API_KEY" then Some "g-key"
    else if String.eqb k "DEFAULT_PROVIDER" then Some "anthropic"
    else None in
  let env' : environ := fun k =>
    if String.eqb k "GEMINI_API_KEY" then Some "g-key" else None in
  let pk := mkPackages true true true in
  _initialize_provider env pk (Some "gemini") None
  = _initialize_provider env' pk (Some "gemini") None.
Proof.
  intros env env' pk.
  apply (command_line_provider_overrides_default env env' pk "gemini" None).
  - discriminate.
  - intros k Hk. unfold env, env'.
    destruct (String.eqb k "GEMINI_API_KEY"); [reflexivity|].
    apply String.eqb_neq in Hk. now rewrite Hk.
Defined.

End AdapterExtras.

(* ================================================================== *)
(** * More on the coordinator and on the watch handler *)
(* ================================================================== *)

Module CoordinatorExtras.

Import PyStr Pathlib Trace AiProviders ConfigPy Main.
Import PyStrFacts AiProvidersFacts MainFacts.

Lemma effects_bind {A B : Type} (m : M A) (k : A -> M B) :
  effects_of (bind m k) = (effects_of m ++ effects_of (k (value_of m)))%list.
Proof.
  unfold bind, effects_of, value_of. destruct m as [a l1]. cbn [fst snd].
  now destruct (k a).
Qed.

Lemma value_bind {A B : Type} (m : M A) (k : A -> M B) :
  value_of (bind m k) = value_of (k (value_of m)).
Proof.
  unfold bind, effects_of, value_of. destruct m as [a l1]. cbn [fst snd].
  now destruct (k a).
Qed.

Lemma effects_of_pair {A : Type} (a : A) (l : list effect) :
  effects_of (a, l) = l.
Proof. reflexivity. Qed.

(** The backend call of a call that reaches the backend. *)
Lemma process_screenshot_fresh_backend (w : world)
  (self : ScreenshotQuestionAnswerer) (arg : option Path) (path : string) :
  value_of (resolve_path w arg) = Some path ->
  last_processed_path self <> Some path ->
  backend_calls (effects_of (process_screenshot w self arg))
  = [ProcessImage path QUESTION_PROMPT].
Proof.
  intros Hr Hl. rewrite (process_screenshot_fresh w self arg path Hr Hl).
  unfold effects_of at 1. cbn [snd backend_calls filter is_process_image].
  f_equal.
  fold (backend_calls
          (effects_of (process_image (provider self)
             (vendor w (provider self) path QUESTION_PROMPT)) ++
           effects_of (route_result (value_of (process_image (provider self)
             (vendor w (provider self) path QUESTION_PROMPT)))))).
  rewrite backend_calls_app, route_result_backend.
  now destruct (process_image_prints (provider self)
                  (vendor w (provider self) path QUESTION_PROMPT)) as [-> _].
Qed.

(** After a call that resolved a path, that path is the one recorded,
    and the adapter is the one there was. *)
Lemma process_screenshot_records (w : world)
  (self : ScreenshotQuestionAnswerer) (arg : option Path) (path : string) :
  value_of (resolve_path w arg) = Some path ->
  last_processed_path (value_of (process_screenshot w self arg)) = Some path.
Proof.
  intros Hr.
  destruct (option_eqb_string (last_processed_path self) (Some path)) eqn:He.
  - apply option_eqb_string_eq in He.
    now rewrite (process_screenshot_duplicate w self arg path Hr He).
  - assert (Hne : last_processed_path self <> Some path).
    { intros H. apply option_eqb_string_eq in H. congruence. }
    now rewrite (process_screenshot_fresh w self arg path Hr Hne).
Qed.

Lemma process_screenshot_keeps_provider (w : world)
  (self : ScreenshotQuestionAnswerer) (arg : option Path) :
  provider (value_of (process_screenshot w self arg)) = provider self.
Proof.
  destruct (value_of (resolve_path w arg)) as [path|] eqn:Hr.
  - destruct (option_eqb_string (last_processed_path self) (Some path)) eqn:He.
    + apply option_eqb_string_eq in He.
      now rewrite (process_screenshot_duplicate w self arg path Hr He).
    + assert (Hne : last_processed_path self <> Some path).
      { intros H. apply option_eqb_string_eq in H. congruence. }
      now rewrite (process_screenshot_fresh w self arg path Hr Hne).
  - now rewrite (process_screenshot_nothing w self arg Hr).
Qed.

(** X10.  An empty answer is no answer: when the vendor replies with
    the empty text, the coordinator prints that no answer was received,
    shows nothing, and has recorded the path all the same. *)
Theorem empty_answer_shows_nothing (w : world)
  (self : ScreenshotQuestionAnswerer) (arg : option Path) (path : string)
  (Hr : value_of (resolve_path w arg) = Some path)
  (Hl : last_processed_path self <> Some path)
  (Hv : vendor w (provider self) path QUESTION_PROMPT = Responds "") :
  process_screenshot w self arg =
  (mkApp (provider self) (Some path),
   [Print ("Processing screenshot: " ++ path);
    ProcessImage path QUESTION_PROMPT;
    Print "No answer received from AI."]).
Proof.
  rewrite (process_screenshot_fresh w self arg path Hr Hl), Hv.
  now rewrite process_image_responds.
Qed.

Lemma empty_answer_witness :
  let shot := "C:\Users\janpa\Pictures\Screenshots\blank.png" in
  let w := mkWorld (fun _ => ScreenshotHandlerPy.DirAbsent)
                   (fun _ _ _ => Responds "") in
  let self := mkApp (AnthropicProvider "key" "claude-3-5-sonnet-20241022")
                    (Some "C:\other.png") in
  process_screenshot w self (Some (of_str shot)) =
  (mkApp (provider self) (Some shot),
   [Print ("Processing screenshot: " ++ shot);
    ProcessImage shot QUESTION_PROMPT;
    Print "No answer received from AI."]).
Proof.
  intros shot w self.
  apply (empty_answer_shows_nothing w self (Some (of_str shot)) shot);
    [reflexivity|discriminate|reflexivity].
Defined.

(** X11.  Only the last path is remembered: after [a] and then a
    different path [b] have been processed, a call for [a] goes to the
    backend again. *)
Theorem only_the_last_path_is_remembered (w1 w2 w3 : world)
  (self : ScreenshotQuestionAnswerer) (arg1 arg2 arg3 : option Path)
  (a b : string)
  (Hab : a <> b)
  (H1 : value_of (resolve_path w1 arg1) = Some a)
  (H2 : value_of (resolve_path w2 arg2) = Some b)
  (H3 : value_of (resolve_path w3 arg3) = Some a) :
  let s1 := value_of (process_screenshot w1 self arg1) in
  let s2 := value_of (process_screenshot w2 s1 arg2) in
  backend_calls (effects_of (process_screenshot w3 s2 arg3))
  = [ProcessImage a QUESTION_PROMPT].
Proof.
  intros s1 s2. apply process_screenshot_fresh_backend; [exact H3|].
  subst s2. rewrite (process_screenshot_records w2 s1 arg2 b H2).
  congruence.
Qed.

Lemma only_the_last_path_witness :
  let w := mkWorld (fun _ => ScreenshotHandlerPy.DirAbsent)
                   (fun _ _ _ => Responds "Question 1: A") in
  let self := mkApp (GeminiProvider "key" "gemini-1.5-flash") None in
  let a := Some (of_str "C:\s\a.png") in
  let b := Some (of_str "C:\s\b.png") in
  let s1 := value_of (process_screenshot w self a) in
  let s2 := value_of (process_screenshot w s1 b) in
  backend_calls (effects_of (process_screenshot w s2 a))
  = [ProcessImage "C:\s\a.png" QUESTION_PROMPT].
Proof.
  intros w self a b.
  apply (only_the_last_path_is_remembered w w w self a b a
           "C:\s\a.png" "C:\s\b.png");
    [discriminate|reflexivity|reflexivity|reflexivity].
Defined.

(** The handler, by cases on its test. *)
Lemma on_created_cases (w : world) (app : ScreenshotQuestionAnswerer)
  (event : FileSystemEvent) :
  (accepts event = true /\
   on_created w app event =
   (value_of (process_screenshot w app (Some (of_str (src_path event)))),
    Sleep 500%Z :: Dispatch (str (of_str (src_path event)))
    :: effects_of
         (process_screenshot w app (Some (of_str (src_path event)))))) \/
  (accepts event = false /\ on_created w app event = (app, [])).
Proof.
  unfold accepts. destruct (is_directory event) eqn:Hd; cbn [negb andb].
  - right. split; [reflexivity|]. apply on_created_other. now left.
  - destruct (has_image_extension (of_str (src_path event))) eqn:He.
    + left. split; [reflexivity|]. now apply on_created_image.
    + right. split; [reflexivity|]. apply on_created_other. now right.
Qed.

(** Once a path is the one recorded, further events for it reach the
    backend no more. *)
Lemma dispatch_events_recorded (p : string)
  (events : list (world * FileSystemEvent)) :
  forall app,
    last_processed_path app = Some (str (of_str p)) ->
    (forall w ev, In (w, ev) events -> src_path ev = p) ->
    backend_calls (effects_of (dispatch_events app events)) = [].
Proof.
  induction events as [|[w ev] events IH]; intros app Hl Hsame;
    [reflexivity|].
  cbn [dispatch_events]. rewrite effects_bind, backend_calls_app.
  assert (Hp : src_path ev = p) by (apply (Hsame w); now left).
  assert (Hrest : forall w' ev', In (w', ev') events -> src_path ev' = p)
    by (intros w' ev' H; apply (Hsame w'); now right).
  destruct (on_created_cases w app ev) as [[_ Hc]|[_ Hc]]; rewrite Hc.
  - rewrite Hp in *.
    rewrite (process_screenshot_duplicate w app (Some (of_str p))
               (str (of_str p)) eq_refl Hl).
    cbn [value_of effects_of fst snd backend_calls filter is_process_image
         Datatypes.app].
    now apply IH.
  - cbn [value_of effects_of fst snd backend_calls filter Datatypes.app].
    now apply IH.
Qed.

(** X12.  However many creation events the watcher reports for one
    path, and whatever the coordinator did before, the backend is
    called once at most for them. *)
Theorem repeated_events_one_backend_call
  (app : ScreenshotQuestionAnswerer)
  (events : list (world * FileSystemEvent)) (p : string)
  (Hsame : forall w ev, In (w, ev) events -> src_path ev = p) :
  (length (backend_calls (effects_of (dispatch_events app events))) <= 1)%nat.
Proof.
  revert app; induction events as [|[w ev] events IH]; intros app;
    [simpl; lia|].
  cbn [dispatch_events]. rewrite effects_bind, backend_calls_app, length_app.
  assert (Hp : src_path ev = p) by (apply (Hsame w); now left).
  assert (Hrest : forall w' ev', In (w', ev') events -> src_path ev' = p)
    by (intros w' ev' H; apply (Hsame w'); now right).
  destruct (on_created_cases w app ev) as [[_ Hc]|[_ Hc]]; rewrite Hc.
  - rewrite Hp.
    cbn [value_of effects_of fst snd backend_calls filter is_process_image].
    fold (backend_calls
            (snd (process_screenshot w app (Some (of_str p))))).
    rewrite (dispatch_events_recorded p events _
               (process_screenshot_records w app (Some (of_str p))
                  (str (of_str p)) eq_refl) Hrest).
    pose proof (process_screenshot_backend_once w app (Some (of_str p))) as H.
    unfold effects_of, backend_calls in *. simpl. lia.
  - cbn [value_of effects_of fst snd backend_calls filter length].
    specialize (IH Hrest app). unfold effects_of, backend_calls in *.
    simpl. lia.
Qed.

Lemma repeated_events_witness :
  let w := mkWorld (fun _ => ScreenshotHandlerPy.DirAbsent)
                   (fun _ _ _ => Responds "Question 2: C") in
  let app := mkApp (OpenAIProvider "key" "gpt-4o") None in
  let ev := mkEvent false "C:\s\shot.png" in
  (length (backend_calls
             (effects_of (dispatch_events app [(w, ev); (w, ev); (w, ev)])))
   <= 1)%nat.
Proof.
  intros w app ev.
  apply (repeated_events_one_backend_call app _ "C:\s\shot.png").
  intros w' ev' [H|[H|[H|[]]]]; inversion H; reflexivity.
Defined.

(** Resolving a path and asking an adapter only ever print. *)
Lemma resolve_path_only_prints (w : world) (arg : option Path) (e : effect) :
  In e (effects_of (resolve_path w arg)) -> exists line, e = Print line.
Proof.
  destruct arg as [p|]; unfold resolve_path; [intros []|].
  destruct (ScreenshotHandlerPy.get_latest_screenshot _ _) as [found printed].
  assert (Hp : In e (map Print printed) -> exists line, e = Print line).
  { intros H. apply in_map_iff in H. destruct H as [x [<- _]]. now exists x. }
  destruct (nonempty found); unfold effects_of, print, tell, bind, ret;
    cbn [fst snd]; rewrite ?app_nil_r; [exact Hp|].
  intros H. apply in_app_or in H. destruct H as [H|[<-|[]]]; [auto|].
  now eexists.
Qed.

Lemma process_image_only_prints (self : AIProvider) (call : vendor_call)
  (e : effect) :
  In e (effects_of (process_image self call)) -> exists line, e = Print line.
Proof.
  destruct call as [text|x].
  - rewrite process_image_responds. intros [].
  - destruct self; unfold process_image, gemini_process_image,
      openai_process_image, anthropic_process_image, effects_of, print,
      tell, bind, ret;
      match goal with
      | |- context [if ?b then _ else _] => destruct b
      end; cbn [fst snd Datatypes.app]; intros [<-|[]]; now eexists.
Qed.

(** What routing the reply of an adapter asks of the overlay. *)
Lemma route_reply_effects (self : AIProvider) (call : vendor_call)
  (e : effect) :
  In e (effects_of (route_result (value_of (process_image self call)))) ->
  (exists line, e = Print line) \/
  e = ShowAnswer (billing_message self) 10%Z true \/
  (exists text, text <> "" /\ call = Responds text /\
                e = ShowAnswer text 5%Z false).
Proof.
  destruct (reply_shape self call) as [[text [Hc ->]] | [-> | ->]].
  - unfold route_result. cbn [nonempty].
    destruct (String.eqb_spec text "") as [->|Hne].
    + intros [<-|[]]. left. now eexists.
    + intros [<-|[<-|[]]]; [left; now eexists|].
      right. right. now exists text.
  - rewrite route_result_warning by apply billing_message_nonempty.
    intros [<-|[<-|[]]]; [left; now eexists|right; now left].
  - intros [<-|[]]. left. now eexists.
Qed.

(** One call of the coordinator calls the overlay no more often than
    the backend. *)
Lemma overlay_shows_replies_bound (w : world)
  (self : ScreenshotQuestionAnswerer) (arg : option Path) :
  (length (overlay_calls (effects_of (process_screenshot w self arg)))
   <= length (backend_calls (effects_of (process_screenshot w self arg))))%nat.
Proof.
  destruct (value_of (resolve_path w arg)) as [path|] eqn:Hr.
  - destruct (option_eqb_string (last_processed_path self) (Some path)) eqn:He.
    + apply option_eqb_string_eq in He.
      rewrite (process_screenshot_duplicate w self arg path Hr He).
      simpl; lia.
    + assert (Hne : last_processed_path self <> Some path).
      { intros H. apply option_eqb_string_eq in H. congruence. }
      rewrite (process_screenshot_fresh_backend w self arg path Hr Hne),
        (process_screenshot_overlay w self arg path Hr Hne).
      destruct (reply_shape (provider self)
                  (vendor w (provider self) path QUESTION_PROMPT))
        as [[text [_ ->]] | [-> | ->]]; unfold route_result;
        cbn [nonempty];
        repeat match goal with
               | |- context [if ?b then _ else _] => destruct b
               end; simpl; lia.
  - rewrite (process_screenshot_nothing w self arg Hr).
    rewrite !effects_of_pair.
    destruct (resolve_path_prints w arg) as [-> ->]. simpl; lia.
Qed.

(** X13.  The coordinator asks the overlay only for what the adapter
    returned in the same call.  When a call shows a text, the call
    resolved a path that was not the last one processed, asked the
    backend once, for that path and with the question prompt, and asked
    the overlay once; the text is not empty, and it is one of the two
    slots of the adapter's reply to that request: the warning slot,
    shown for 10 seconds in the warning style (the vendor call failed
    and the text is the adapter's billing message), or the answer slot
    with an empty warning slot, shown for 5 seconds in the normal style
    (the text is what the vendor answered to that request).  The
    overlay is never asked more often than the backend. *)
Theorem overlay_shows_replies_only (w : world)
  (self : ScreenshotQuestionAnswerer) (arg : option Path) :
  let trace := effects_of (process_screenshot w self arg) in
  (length (overlay_calls trace) <= length (backend_calls trace))%nat /\
  forall text duration is_warning,
    In (ShowAnswer text duration is_warning) trace ->
    exists path,
      value_of (resolve_path w arg) = Some path /\
      last_processed_path self <> Some path /\
      backend_calls trace = [ProcessImage path QUESTION_PROMPT] /\
      overlay_calls trace = [ShowAnswer text duration is_warning] /\
      text <> "" /\
      let request := vendor w (provider self) path QUESTION_PROMPT in
      let reply := value_of (process_image (provider self) request) in
      ((duration = 10%Z /\ is_warning = true /\
        reply = (None, Some text) /\
        text = billing_message (provider self) /\
        exists e, request = Fails e) \/
       (duration = 5%Z /\ is_warning = false /\
        reply = (Some text, None) /\
        request = Responds text)).
Proof.
  intros trace. subst trace.
  split; [apply overlay_shows_replies_bound|].
  intros text duration is_warning Hin.
  destruct (value_of (resolve_path w arg)) as [path|] eqn:Hr.
  - destruct (option_eqb_string (last_processed_path self) (Some path)) eqn:He.
    + apply option_eqb_string_eq in He.
      rewrite (process_screenshot_duplicate w self arg path Hr He) in Hin.
      destruct Hin.
    + assert (Hne : last_processed_path self <> Some path).
      { intros H. apply option_eqb_string_eq in H. congruence. }
      exists path. split; [reflexivity|]. split; [exact Hne|].
      split; [now apply process_screenshot_fresh_backend|].
      rewrite (process_screenshot_overlay w self arg path Hr Hne).
      rewrite (process_screenshot_fresh w self arg path Hr Hne) in Hin.
      unfold effects_of at 1 in Hin. cbn [snd] in Hin.
      destruct Hin as [H|[H|H]]; try discriminate H.
      apply in_app_or in H. destruct H as [H|H].
      { apply process_image_only_prints in H.
        destruct H as [line H]. discriminate H. }
      cbv zeta.
      destruct (vendor w (provider self) path QUESTION_PROMPT)
        as [answer|e].
      * rewrite process_image_responds in *. cbn [value_of fst] in *.
        destruct (String.eqb_spec answer "") as [->|Hanswer].
        -- destruct H as [H|[]]. discriminate H.
        -- rewrite (route_result_answer answer Hanswer) in *.
           destruct H as [H|[H|[]]]; [discriminate H|].
           inversion H; subst. split; [reflexivity|].
           split; [exact Hanswer|]. right. now repeat split.
      * rewrite process_image_fails in *.
        destruct (billing_detected (provider self) e).
        -- rewrite (route_result_warning None _
                      (billing_message_nonempty (provider self))) in *.
           destruct H as [H|[H|[]]]; [discriminate H|].
           inversion H; subst. split; [reflexivity|].
           split; [apply billing_message_nonempty|]. left.
           repeat split. now exists e.
        -- rewrite route_result_silent in H.
           destruct H as [H|[]]. discriminate H.
  - rewrite (process_screenshot_nothing w self arg Hr) in Hin.
    rewrite effects_of_pair in Hin.
    apply resolve_path_only_prints in Hin. destruct Hin as [line H].
    discriminate H.
Qed.

(** A call of the coordinator prints, calls the backend and calls the
    overlay; it neither sleeps nor dispatches. *)
Lemma process_screenshot_no_sleep (w : world)
  (self : ScreenshotQuestionAnswerer) (arg : option Path) :
  filter is_sleep (effects_of (process_screenshot w self arg)) = [].
Proof.
  assert (Hall : forall l : list effect,
            (forall e, In e l -> is_sleep e = false) ->
            filter is_sleep l = []).
  { induction l as [|x l IH]; intros H; [reflexivity|]. simpl.
    rewrite (H x (or_introl eq_refl)). apply IH.
    intros e He. apply H. now right. }
  apply Hall. intros e He.
  destruct (value_of (resolve_path w arg)) as [path|] eqn:Hr.
  - destruct (option_eqb_string (last_processed_path self) (Some path)) eqn:Hq.
    + apply option_eqb_string_eq in Hq.
      rewrite (process_screenshot_duplicate w self arg path Hr Hq) in He.
      destruct He.
    + assert (Hne : last_processed_path self <> Some path).
      { intros H. apply option_eqb_string_eq in H. congruence. }
      rewrite (process_screenshot_fresh w self arg path Hr Hne) in He.
      unfold effects_of at 1 in He. cbn [snd] in He.
      destruct He as [<-|[<-|He]]; try reflexivity.
      apply in_app_or in He. destruct He as [He|He].
      * apply process_image_only_prints in He. now destruct He as [line ->].
      * destruct (route_reply_effects _ _ _ He)
          as [[line ->]|[->|[t [_ [_ ->]]]]]; reflexivity.
  - rewrite (process_screenshot_nothing w self arg Hr) in He.
    unfold effects_of at 1 in He. cbn [snd] in He.
    apply resolve_path_only_prints in He. now destruct He as [line ->].
Qed.

(** The books of one event. *)
Lemma on_created_accounting (w : world) (app : ScreenshotQuestionAnswerer)
  (ev : FileSystemEvent) :
  let r := on_created w app ev in
  let n := if accepts ev then 1%nat else 0%nat in
  provider (value_of r) = provider app /\
  filter is_sleep (effects_of r)
  = (if accepts ev then [Sleep 500%Z] else []) /\
  length (filter is_dispatch (effects_of r)) = n /\
  (length (backend_calls (effects_of r)) <= n)%nat /\
  (length (overlay_calls (effects_of r))
   <= length (backend_calls (effects_of r)))%nat.
Proof.
  intros r n. subst r n.
  destruct (on_created_cases w app ev) as [[Ha Hc]|[Ha Hc]];
    rewrite Ha, Hc; rewrite !effects_of_pair.
  - unfold value_of at 1. cbn [fst].
    cbn [filter is_sleep is_dispatch backend_calls overlay_calls
           is_process_image is_show_answer].
    fold (backend_calls
            (effects_of (process_screenshot w app
                           (Some (of_str (src_path ev)))))).
    fold (overlay_calls
            (effects_of (process_screenshot w app
                           (Some (of_str (src_path ev)))))).
    rewrite process_screenshot_no_sleep, process_screenshot_no_dispatch.
    repeat split.
    + apply process_screenshot_keeps_provider.
    + apply process_screenshot_backend_once.
    + apply overlay_shows_replies_bound.
  - repeat split; simpl; lia.
Qed.

(** X14.  Over any stream of creation events the watcher keeps its
    books: the adapter in use stays the same; every accepted event
    costs one settle delay of 500 ms and one dispatch, duplicates
    included; the backend is called no more often than events were
    accepted, and the overlay no more often than the backend. *)
Theorem dispatch_events_accounting (events : list (world * FileSystemEvent)) :
  forall app : ScreenshotQuestionAnswerer,
  let r := dispatch_events app events in
  let accepted := filter (fun we => accepts (snd we)) events in
  provider (value_of r) = provider app /\
  filter is_sleep (effects_of r) = map (fun _ => Sleep 500%Z) accepted /\
  length (filter is_dispatch (effects_of r)) = length accepted /\
  (length (backend_calls (effects_of r)) <= length accepted)%nat /\
  (length (overlay_calls (effects_of r))
   <= length (backend_calls (effects_of r)))%nat.
Proof.
  induction events as [|[w ev] events IH]; intros app r accepted.
  - repeat split; simpl; lia.
  - subst r accepted. cbn [dispatch_events filter snd].
    rewrite value_bind, effects_bind.
    destruct (IH (value_of (on_created w app ev)))
      as [IH1 [IH2 [IH3 [IH4 IH5]]]].
    destruct (on_created_accounting w app ev) as [H1 [H2 [H3 [H4 H5]]]].
    unfold backend_calls, overlay_calls in *.
    rewrite !filter_app, !length_app, IH1, IH2, IH3, H1, H2, H3.
    destruct (accepts ev); cbn [map length Datatypes.app];
      repeat split; auto; lia.
Qed.

(** [launch], once the adapter is built. *)
Lemma launch_after_initialize (env : environ) (pk : packages) (w : world)
  (a : args) (p : AIProvider) (out : list effect) :
  _initialize_provider env pk (option_map choice_name (arg_provider a))
    (arg_model a)
  = (Proceed p, out) ->
  launch env pk w a =
  match fs w SCREENSHOT_DIR with
  | ScreenshotHandlerPy.DirAbsent =>
      (SysExit 1%Z,
       (out ++ [Print ("Error: Screenshot directory does not exist: " ++
                       SCREENSHOT_DIR)])%list)
  | _ =>
      (Proceed tt,
       (out ++
        [Print ("Monitoring screenshots directory: " ++ SCREENSHOT_DIR);
         Print "Take a screenshot using Windows Key + Print Screen to process it automatically.";
         Print "Press Ctrl+C to exit.";
         StartObserver SCREENSHOT_DIR])%list)
  end.
Proof.
  intros H. unfold launch, new_app. rewrite H. unfold run.
  destruct (fs w SCREENSHOT_DIR); unfold bind, ret, print, tell;
    cbn [fst snd Datatypes.app]; now rewrite ?app_nil_r.
Qed.

Lemma report_missing_key_prints (n : string) (e : effect) :
  In e (effects_of (report_missing_key n)) -> exists line, e = Print line.
Proof.
  unfold report_missing_key.
  destruct (String.eqb n "gemini");
    [|destruct (String.eqb n "openai");
      [|destruct (String.eqb n "anthropic")]];
    unfold effects_of, print, tell, bind, ret; cbn [fst snd Datatypes.app];
    intros H; repeat (destruct H as [<-|H]; [now eexists|]); destruct H.
Qed.

(** After the parser: the observer is started exactly when the
    credential is set, the factory builds the adapter and the directory
    exists; otherwise the start exits with status 1. *)
Lemma launch_observer (env : environ) (pk : packages) (w : world)
  (a : args) :
  let name := or_else (option_map choice_name (arg_provider a))
                (DEFAULT_PROVIDER env) in
  let model := or_else (arg_model a) (get_model env name) in
  let r := launch env pk w a in
  let ready :=
    (exists key p,
       nonempty (get_api_key env name) = Some key /\
       create_provider pk name key (Some model) = Returned p) /\
    fs w SCREENSHOT_DIR <> ScreenshotHandlerPy.DirAbsent in
  (ready -> value_of r = Proceed tt /\
            last (effects_of r) (Print "") = StartObserver SCREENSHOT_DIR) /\
  (~ ready -> value_of r = SysExit 1%Z /\
              ~ In (StartObserver SCREENSHOT_DIR) (effects_of r)) /\
  (forall code, value_of r = SysExit code -> code = 1%Z /\ ~ ready).
Proof.
  intros name model r ready. subst r ready.
  destruct (nonempty (get_api_key env name)) as [key|] eqn:Hk.
  - pose proof (initialize_provider_with_key env pk
                  (option_map choice_name (arg_provider a))
                  (arg_model a) key Hk) as Hi.
    cbv zeta in Hi. fold name model in Hi.
    destruct (create_provider pk name key (Some model)) as [p|err] eqn:Hc.
    + rewrite (launch_after_initialize env pk w a p _ Hi).
      destruct (fs w SCREENSHOT_DIR) as [|err|l] eqn:Hfs;
        (split; [|split]).
      * intros [_ Hd]. now contradiction Hd.
      * intros _. split; [reflexivity|].
        intros [H|[H|[]]]; discriminate H.
      * intros code H. inversion H. split; [reflexivity|].
        intros [_ Hd]. now apply Hd.
      * intros _. split; reflexivity.
      * intros Hn. exfalso. apply Hn. split; [|discriminate].
        exists key, p. now split.
      * intros code H. discriminate H.
      * intros _. split; reflexivity.
      * intros Hn. exfalso. apply Hn. split; [|discriminate].
        exists key, p. now split.
      * intros code H. discriminate H.
    + rewrite (launch_exits_early env pk w a _ _ Hi).
      split; [|split].
      * intros [[key' [p' [Hk' Hc']]] _]. inversion Hk'; subst key'.
        rewrite Hc in Hc'. discriminate Hc'.
      * intros _. split; [reflexivity|].
        intros [H|[]]; discriminate H.
      * intros code H. inversion H. split; [reflexivity|].
        intros [[key' [p' [Hk' Hc']]] _]. inversion Hk'; subst key'.
        rewrite Hc in Hc'. discriminate Hc'.
  - pose proof (initialize_provider_no_key env pk
                  (option_map choice_name (arg_provider a))
                  (arg_model a) Hk) as Hi. fold name in Hi.
    destruct (report_missing_key name) as [v out] eqn:Hrep.
    assert (Hv : v = SysExit 1%Z).
    { destruct (report_missing_key_exits name) as [hint Hh].
      rewrite Hh in Hrep. now inversion Hrep. }
    subst v. rewrite (launch_exits_early env pk w a _ _ Hi).
    split; [|split].
    + intros [[key' [p' [Hk' _]]] _]. discriminate Hk'.
    + intros _. split; [reflexivity|].
      intros Hin. rewrite effects_of_pair in Hin.
      assert (H : In (StartObserver SCREENSHOT_DIR)
                     (effects_of (report_missing_key name)))
        by (rewrite Hrep; exact Hin).
      apply report_missing_key_prints in H. destruct H as [line H].
      discriminate H.
    + intros code H. inversion H. split; [reflexivity|].
      intros [[key' [p' [Hk' _]]] _]. discriminate Hk'.
Qed.

(** X15.  [main] starts the observer exactly when the argument parser
    accepts the command line, the credential of the backend is set and
    not empty, the factory builds the adapter, and the screenshot
    directory exists.  In every other case the process exits and the
    observer is not started; the status is 0 when the parser printed
    the help, 2 when the parser refused the line, and 1 when the start
    failed after the parser. *)
Theorem observer_started_only_on_success (env : environ) (pk : packages)
  (w : world) (argv : list cli_item) :
  let r := main env pk w argv in
  let ready :=
    exists a,
      parse_args argv = (Proceed a, []) /\
      (exists key p,
         nonempty (get_api_key env
                     (or_else (option_map choice_name (arg_provider a))
                        (DEFAULT_PROVIDER env)))
         = Some key /\
         create_provider pk
           (or_else (option_map choice_name (arg_provider a))
              (DEFAULT_PROVIDER env))
           key
           (Some (or_else (arg_model a)
                    (get_model env
                       (or_else (option_map choice_name (arg_provider a))
                          (DEFAULT_PROVIDER env)))))
         = Returned p) /\
      fs w SCREENSHOT_DIR <> ScreenshotHandlerPy.DirAbsent in
  (ready -> value_of r = Proceed tt /\
            last (effects_of r) (Print "") = StartObserver SCREENSHOT_DIR) /\
  (~ ready -> (exists code, value_of r = SysExit code) /\
              ~ In (StartObserver SCREENSHOT_DIR) (effects_of r)) /\
  (forall code,
     value_of r = SysExit code ->
     ~ ready /\
     ((code = 0%Z /\ In HelpOpt argv /\
       effects_of r = [ParserHelp]) \/
      (code = 2%Z /\ exists reason, effects_of r = [ParserError reason]) \/
      (code = 1%Z /\ exists a, parse_args argv = (Proceed a, [])))).
Proof.
  intros r ready. subst r ready.
  destruct (parse_items_cases argv (mkArgs None None) [])
    as [[a [Hp _]]|[[Hp Hh]|[reason Hp]]]; fold (parse_args argv) in Hp.
  - rewrite (main_parsed env pk w argv a Hp).
    destruct (launch_observer env pk w a) as [H1 [H2 H3]].
    cbv zeta in H1, H2, H3.
    split; [|split].
    + intros [a' [Hp' Hr]]. rewrite Hp in Hp'. inversion Hp'; subst a'.
      now apply H1.
    + intros Hn. destruct H2 as [H2 H2'].
      * intros Hr. apply Hn. exists a. now split.
      * split; [now exists 1%Z|exact H2'].
    + intros code Hv. destruct (H3 code Hv) as [-> Hn]. split.
      * intros [a' [Hp' Hr]]. rewrite Hp in Hp'. inversion Hp'; subst a'.
        now apply Hn.
      * right. right. split; [reflexivity|now exists a].
  - rewrite (main_parser_exit env pk w argv _ _ Hp).
    assert (Hn : forall P : args -> Prop,
               ~ exists a, parse_args argv = (Proceed a, []) /\ P a).
    { intros P [a [Hp' _]]. rewrite Hp in Hp'. discriminate Hp'. }
    split; [|split].
    + intros H. now apply Hn in H.
    + intros _. split; [now exists 0%Z|].
      intros [H|[]]; discriminate H.
    + intros code Hv. inversion Hv. split; [apply Hn|].
      left. now repeat split.
  - rewrite (main_parser_exit env pk w argv _ _ Hp).
    assert (Hn : forall P : args -> Prop,
               ~ exists a, parse_args argv = (Proceed a, []) /\ P a).
    { intros P [a [Hp' _]]. rewrite Hp in Hp'. discriminate Hp'. }
    split; [|split].
    + intros H. now apply Hn in H.
    + intros _. split; [now exists 2%Z|].
      intros [H|[]]; discriminate H.
    + intros code Hv. inversion Hv. split; [apply Hn|].
      right. left. split; [reflexivity|now exists reason].
Qed.

(** X21.  The watch handler and the reader name a file by the same
    string: once the handler has dealt with the creation event of the
    file [n] of the screenshot directory, a call of the coordinator
    without a path that finds the same file as the latest one returns
    at once, without any effect. *)
Theorem watcher_and_reader_name_one_path (w1 w2 : world)
  (app : ScreenshotQuestionAnswerer) (n : string)
  (Hn : rfind_sep n = None)
  (Himg : has_image_extension (mkPath SCREENSHOT_DIR n) = true)
  (Hlatest : value_of (resolve_path w2 None)
             = Some (str (joinpath SCREENSHOT_DIR n))) :
  let event := mkEvent false (SCREENSHOT_DIR ++ "\" ++ n) in
  let app' := value_of (on_created w1 app event) in
  filter is_dispatch (effects_of (on_created w1 app event))
  = [Dispatch (str (joinpath SCREENSHOT_DIR n))] /\
  process_screenshot w2 app' None = (app', []).
Proof.
  intros event app'.
  assert (Hp : of_str (src_path event) = mkPath SCREENSHOT_DIR n)
    by (apply ReaderExtras.of_str_join; exact Hn).
  assert (Hc : on_created w1 app event =
    (value_of (process_screenshot w1 app (Some (mkPath SCREENSHOT_DIR n))),
     Sleep 500%Z :: Dispatch (str (mkPath SCREENSHOT_DIR n))
     :: effects_of
          (process_screenshot w1 app (Some (mkPath SCREENSHOT_DIR n))))).
  { rewrite <- Hp. apply on_created_image; [reflexivity|].
    rewrite Hp. exact Himg. }
  split.
  - rewrite Hc, effects_of_pair. cbn [filter is_dispatch].
    now rewrite process_screenshot_no_dispatch.
  - apply (process_screenshot_duplicate w2 app' None
             (str (joinpath SCREENSHOT_DIR n)) Hlatest).
    subst app'. rewrite Hc. unfold value_of at 1. cbn [fst].
    now apply process_screenshot_records.
Qed.

Lemma watcher_and_reader_witness :
  let w := mkWorld
    (fun _ => ScreenshotHandlerPy.DirEntries
       [ScreenshotHandlerPy.mkDirent "old.png" true
          (ScreenshotHandlerPy.StatOk 10);
        ScreenshotHandlerPy.mkDirent "Screenshot (7).png" true
          (ScreenshotHandlerPy.StatOk 20)])
    (fun _ _ _ => Responds "Question 7: D") in
  let app := mkApp (OpenAIProvider "key" "gpt-4o") None in
  let event := mkEvent false (SCREENSHOT_DIR ++ "\" ++ "Screenshot (7).png") in
  let app' := value_of (on_created w app event) in
  filter is_dispatch (effects_of (on_created w app event))
  = [Dispatch (str (joinpath SCREENSHOT_DIR "Screenshot (7).png"))] /\
  process_screenshot w app' None = (app', []).
Proof.
  intros w app.
  apply (watcher_and_reader_name_one_path w w app "Screenshot (7).png");
    reflexivity.
Defined.

Lemma string_app_inv_tail (a b s : string) : a ++ s = b ++ s -> a = b.
Proof.
  revert b; induction a as [|c a IH]; intros [|c' b] H.
  - reflexivity.
  - simpl in H. apply (f_equal String.length) in H. simpl in H.
    rewrite ReaderExtras.string_length_app in H. lia.
  - simpl in H. apply (f_equal String.length) in H. simpl in H.
    rewrite ReaderExtras.string_length_app in H. lia.
  - simpl in H. inversion H. f_equal. now apply IH.
Qed.

(** X22.  The advice printed for a missing key names the right
    variable: whenever [_initialize_provider] prints a line of the form
    [  X=your_key_here], the variable [X] is the one [get_api_key]
    reads for the selected provider, and it is unset or empty. *)
Theorem missing_key_hint_names_the_variable (env : environ)
  (pk : packages) (pn mn : option string) (X : string)
  (H : In (Print ("  " ++ X ++ "=your_key_here"))
          (effects_of (_initialize_provider env pk pn mn))) :
  let name := or_else pn (DEFAULT_PROVIDER env) in
  get_api_key env name = env X /\ nonempty (env X) = None.
Proof.
  intros name.
  destruct (nonempty (get_api_key env name)) as [key|] eqn:Hk.
  - exfalso.
    rewrite (initialize_provider_with_key env pk pn mn key Hk) in H.
    fold name in H.
    destruct (create_provider pk name key _); rewrite effects_of_pair in H;
      destruct H as [H|[]]; discriminate H.
  - rewrite (initialize_provider_no_key env pk pn mn Hk) in H.
    fold name in H. unfold report_missing_key in H.
    assert (Hcancel : forall V : string,
      Print ("  " ++ V ++ "=your_key_here")
      = Print ("  " ++ X ++ "=your_key_here") -> V = X).
    { intros V HV. inversion HV as [HV']. now apply string_app_inv_tail in HV'. }
    assert (Hno : forall line : string,
      (line = "Error: API key for " ++ name ++ " not found." \/
       line = "Please set the appropriate environment variable in your .env file:") ->
      Print line <> Print ("  " ++ X ++ "=your_key_here")).
    { intros line [->| ->] Heq; discriminate Heq. }
    destruct (String.eqb_spec name "gemini") as [Hg|_].
    { unfold effects_of, print, tell, bind, ret in H.
      cbn [fst snd Datatypes.app] in H.
      destruct H as [H|[H|[H|[]]]];
        [now apply Hno in H; [|left] | now apply Hno in H; [|right] |].
      apply (Hcancel "GEMINI_API_KEY") in H. subst X.
      rewrite Hg in *. split; [reflexivity|exact Hk]. }
    destruct (String.eqb_spec name "openai") as [Ho|_].
    { unfold effects_of, print, tell, bind, ret in H.
      cbn [fst snd Datatypes.app] in H.
      destruct H as [H|[H|[H|[]]]];
        [now apply Hno in H; [|left] | now apply Hno in H; [|right] |].
      apply (Hcancel "OPENAI_API_KEY") in H. subst X.
      rewrite Ho in *. split; [reflexivity|exact Hk]. }
    destruct (String.eqb_spec name "anthropic") as [Ha|_].
    { unfold effects_of, print, tell, bind, ret in H.
      cbn [fst snd Datatypes.app] in H.
      destruct H as [H|[H|[H|[]]]];
        [now apply Hno in H; [|left] | now apply Hno in H; [|right] |].
      apply (Hcancel "ANTHROPIC_API_KEY") in H. subst X.
      rewrite Ha in *. split; [reflexivity|exact Hk]. }
    unfold effects_of, print, tell, bind, ret in H.
    cbn [fst snd Datatypes.app] in H.
    destruct H as [H|[H|[]]];
      [now apply Hno in H; [|left] | now apply Hno in H; [|right]].
Qed.

Lemma missing_key_hint_witness :
  let env : environ := fun k =>
    if String.eqb k "OPENAI_API_KEY" then Some "" else None in
  let pk := mkPackages true true true in
  get_api_key env (or_else None (DEFAULT_PROVIDER env))
  = env "OPENAI_API_KEY" /\
  nonempty (env "OPENAI_API_KEY") = None.
Proof.
  intros env pk.
  apply (missing_key_hint_names_the_variable env pk None None
           "OPENAI_API_KEY").
  right. right. left. reflexivity.
Defined.

End CoordinatorExtras.

(* ================================================================== *)
(** * More on the overlay *)
(* ================================================================== *)

Module OverlayExtras.

Import PyStr Trace UiOverlay UiOverlayFacts.
Local Open Scope Z_scope.

(** The bits of [WS_EX_TRANSPARENT]: bit 5, and no other. *)
Lemma transparent_bit (i : Z) :
  Z.testbit _ws_ex_transparent i = (i =? 5).
Proof.
  change _ws_ex_transparent with (2 ^ 5).
  rewrite Z.pow2_bits_eqb by lia. apply Z.eqb_sym.
Qed.

(** X16.  On a window with a handle, [_set_click_through] sets or
    clears bit 5 of the extended style ([WS_EX_TRANSPARENT]) and leaves
    every other bit of the style as it was. *)
Theorem click_through_touches_one_bit (enable : bool) (m : AnswerModal)
  (i : Z)
  (Hh : no_hwnd m = false)
  (Hi : 0 <= i) :
  Z.testbit (ex_style (_set_click_through enable m)) i
  = if i =? 5 then enable else Z.testbit (ex_style m) i.
Proof.
  unfold _set_click_through. rewrite Hh.
  destruct enable; cbn [ex_style set_ex_style].
  - rewrite Z.lor_spec, transparent_bit.
    destruct (i =? 5); [apply orb_true_r|apply orb_false_r].
  - rewrite Z.land_spec, Z.lnot_spec, transparent_bit by exact Hi.
    destruct (i =? 5); [apply andb_false_r|apply andb_true_r].
Qed.

Lemma click_through_one_bit_witness :
  let m := set_ex_style 262280
             (set_hwnd (Some 1312) (new_modal 0 1312 1080)) in
  no_hwnd m = false /\ 0 <= 3 /\
  Z.testbit (ex_style (_set_click_through false
                         (_set_click_through true m))) 3
  = Z.testbit (ex_style m) 3.
Proof.
  intros m. split; [reflexivity|]. split; [lia|].
  rewrite (click_through_touches_one_bit false
             (_set_click_through true m) 3); [|reflexivity|lia].
  cbn [Z.eqb Pos.eqb].
  apply (click_through_touches_one_bit true m 3); [reflexivity|lia].
Defined.

(** X17.  Withdrawing is idempotent: running the closure [_hide] a
    second time changes nothing; and whatever the window showed, after
    [_hide] it is off screen with its text, its colour and its pending
    timers untouched. *)
Theorem hide_is_idempotent (m : AnswerModal) :
  _hide (_hide m) = _hide m /\
  (root m = true -> viewable (_hide m) = false) /\
  label_text (_hide m) = label_text m /\
  label_fg (_hide m) = label_fg m /\
  timers (_hide m) = timers m.
Proof.
  repeat split.
  - destruct m as [r n q v lt lf g tm hw ex id sh].
    unfold _hide, _set_click_through, no_hwnd.
    destruct r; cbn -[Z.lor Z.eqb]; [|reflexivity].
    destruct hw as [h|]; cbn -[Z.lor Z.eqb]; [|reflexivity].
    destruct (h =? 0) eqn:Hh; cbn -[Z.lor Z.eqb]; rewrite ?Hh;
      cbn -[Z.lor Z.eqb]; [reflexivity|].
    unfold set_viewable, set_ex_style. cbn -[Z.lor Z.eqb]. f_equal.
    now rewrite <- Z.lor_assoc, Z.lor_diag.
  - intros Hr. unfold _hide. now rewrite Hr.
  - unfold _hide, _set_click_through.
    destruct (root m), (no_hwnd m); reflexivity.
  - unfold _hide, _set_click_through.
    destruct (root m), (no_hwnd m); reflexivity.
  - apply timers_hide.
Qed.

(** The main loop, one step at a time. *)
Lemma mainloop_fire (f : nat) (t due : Z) (cb : callback)
  (q : list (Z * callback)) (m : AnswerModal) :
  timers m = (due, cb) :: q -> due <= t ->
  mainloop_fuel (S f) t m =
  mainloop_fuel f t
    (run_callback cb (set_now (Z.max (now m) due) (set_timers q m))).
Proof.
  intros Hq Hd. cbn [mainloop_fuel]. rewrite Hq.
  now destruct (Z.leb_spec due t); [|lia].
Qed.

Lemma mainloop_wait (f : nat) (t due : Z) (cb : callback)
  (q : list (Z * callback)) (m : AnswerModal) :
  timers m = (due, cb) :: q -> t < due ->
  mainloop_fuel f t m = set_now (Z.max (now m) t) m.
Proof.
  intros Hq Hd. destruct f as [|f]; cbn [mainloop_fuel]; [reflexivity|].
  rewrite Hq. now destruct (Z.leb_spec due t); [lia|].
Qed.

Lemma mainloop_idle (f : nat) (t : Z) (m : AnswerModal) :
  timers m = [] -> mainloop_fuel f t m = set_now (Z.max (now m) t) m.
Proof.
  intros Hq. destruct f as [|f]; cbn [mainloop_fuel]; [reflexivity|].
  now rewrite Hq.
Qed.

(** What the closure [_show] leaves behind on a window that is ready. *)
Lemma show_leaves (text : string) (duration : Z) (is_warning : bool)
  (m : AnswerModal) :
  root m = true ->
  let s := _show text duration is_warning m in
  root s = true /\ now s = now m /\ viewable s = true /\
  label_text s = text /\
  label_fg s = (if is_warning then warning_color else text_color) /\
  timers s = insert_timer (now m + duration * 1000, HideWithClickThrough)
                          (timers m).
Proof.
  intros Hroot s.
  assert (Ht : timers s = insert_timer
                 (now m + duration * 1000, HideWithClickThrough) (timers m))
    by (apply timers_show; exact Hroot).
  subst s. destruct m as [r n q v lt lf g tm hw ex id sh].
  cbn [root] in Hroot. subst r.
  repeat split; try exact Ht;
    unfold _show, after, _set_click_through, _position_window, no_hwnd;
    destruct hw as [h|];
    repeat (cbn -[Z.lor Z.eqb Z.add Z.mul Z.sub insert_timer];
            match goal with
            | |- context [if ?b then _ else _] => destruct b
            end);
    reflexivity.
Qed.

(** What the closure [_hide] leaves behind. *)
Lemma hide_leaves (m : AnswerModal) :
  root m = true ->
  root (_hide m) = true /\ now (_hide m) = now m /\
  viewable (_hide m) = false /\ label_text (_hide m) = label_text m /\
  label_fg (_hide m) = label_fg m /\ timers (_hide m) = timers m.
Proof.
  intros Hroot. unfold _hide, _set_click_through. rewrite Hroot.
  destruct (no_hwnd m); repeat split; auto.
Qed.

(** X18.  One show on an idle window that is ready: at every later
    time [t] the label carries the text in the colour of its style; the
    window is on screen, with its dismissal pending, as long as fewer
    than [duration] seconds have passed since the call, and it is off
    screen with nothing pending from then on. *)
Theorem single_show_lasts_its_duration (text : string) (duration : Z)
  (is_warning : bool) (m : AnswerModal) (t : Z)
  (Hroot : root m = true)
  (Hidle : timers m = [])
  (Hd : 0 <= duration)
  (Ht : now m <= t) :
  let shown :=
    mainloop_until t (value_of (show_answer text duration is_warning m)) in
  label_text shown = text /\
  label_fg shown = (if is_warning then warning_color else text_color) /\
  now shown = t /\
  (t < now m + duration * 1000 ->
   viewable shown = true /\
   timers shown = [(now m + duration * 1000, HideWithClickThrough)]) /\
  (now m + duration * 1000 <= t ->
   viewable shown = false /\ timers shown = []).
Proof.
  intros shown. subst shown.
  rewrite (show_answer_ready _ _ _ _ Hroot). unfold value_of. cbn [fst].
  set (m1 := after 0 (Show text duration is_warning) m).
  assert (Hq1 : timers m1 = [(now m + 0, Show text duration is_warning)]).
  { subst m1. unfold after. cbn [timers set_timers]. now rewrite Hidle. }
  assert (Hn1 : now m1 = now m) by reflexivity.
  assert (Hr1 : root m1 = true) by exact Hroot.
  unfold mainloop_until. rewrite Hq1.
  change (pending_work [(now m + 0, Show text duration is_warning)])
    with 3%nat.
  rewrite (mainloop_fire 2 t _ _ _ m1 Hq1) by lia.
  cbn [run_callback].
  set (m1' := set_now (Z.max (now m1) (now m + 0)) (set_timers [] m1)).
  assert (Hr1' : root m1' = true) by exact Hroot.
  assert (Hn1' : now m1' = now m).
  { subst m1'. cbn [now set_now]. rewrite Hn1. lia. }
  assert (Hq1' : timers m1' = []) by reflexivity.
  destruct (show_leaves text duration is_warning m1' Hr1')
    as [R [N [V [L [F T]]]]].
  set (s1 := _show text duration is_warning m1') in *.
  rewrite Hq1', Hn1' in T. cbn [insert_timer] in T. rewrite Hn1' in N.
  destruct (Z.lt_ge_cases t (now m + duration * 1000)) as [Hlt|Hge].
  - rewrite (mainloop_wait 2 t _ _ _ s1 T Hlt).
    cbn [label_text label_fg now viewable timers set_now].
    rewrite L, F, V, T, N.
    repeat split; try lia; intros; try lia.
  - rewrite (mainloop_fire 1 t _ _ _ s1 T Hge).
    cbn [run_callback].
    set (s1' := set_now (Z.max (now s1) (now m + duration * 1000))
                        (set_timers [] s1)).
    assert (Hr2 : root s1' = true) by exact R.
    assert (Hn2 : now s1' = now m + duration * 1000).
    { subst s1'. cbn [now set_now]. rewrite N. lia. }
    unfold _hide_with_click_through. rewrite Hr2.
    set (s2 := after 0 Hide s1').
    assert (Hq2 : timers s2 = [(now s1' + 0, Hide)]) by reflexivity.
    rewrite (mainloop_fire 0 t _ _ _ s2 Hq2) by lia.
    cbn [run_callback mainloop_fuel].
    set (s2' := set_now (Z.max (now s2) (now s1' + 0)) (set_timers [] s2)).
    assert (Hr3 : root s2' = true) by exact R.
    destruct (hide_leaves s2' Hr3) as [R3 [N3 [V3 [L3 [F3 T3]]]]].
    cbn [label_text label_fg now viewable timers set_now].
    rewrite L3, F3, V3, T3, N3.
    change (label_text s2') with (label_text s1).
    change (label_fg s2') with (label_fg s1).
    change (timers s2') with (@nil (Z * callback)).
    change (now s2') with (Z.max (now s1') (now s1' + 0)).
    rewrite L, F, Hn2.
    repeat split; try lia; intros; try lia.
Qed.

Lemma single_show_witness :
  let m := new_modal 0 1312 1080 in
  let shown := mainloop_until 4999 (value_of (show_answer "B" 5 false m)) in
  label_text shown = "B" /\ viewable shown = true.
Proof.
  intros m shown.
  destruct (single_show_lasts_its_duration "B" 5 false m 4999)
    as [H1 [_ [_ [H2 _]]]]; try reflexivity; try (cbn; lia).
  split; [exact H1|]. apply H2. cbn. lia.
Defined.

(** The three callbacks at the head of the queue, fired by the loop. *)
Lemma fire_show (f : nat) (t due : Z) (text : string) (duration : Z)
  (is_warning : bool) (q : list (Z * callback)) (m : AnswerModal) :
  root m = true ->
  timers m = (due, Show text duration is_warning) :: q ->
  now m <= due -> due <= t ->
  exists s,
    mainloop_fuel (S f) t m = mainloop_fuel f t s /\
    root s = true /\ now s = due /\ viewable s = true /\
    label_text s = text /\
    label_fg s = (if is_warning then warning_color else text_color) /\
    timers s
    = insert_timer (due + duration * 1000, HideWithClickThrough) q.
Proof.
  intros Hr Hq Hn Hd.
  set (m' := set_now (Z.max (now m) due) (set_timers q m)).
  assert (Hr' : root m' = true) by exact Hr.
  destruct (show_leaves text duration is_warning m' Hr')
    as [R [N [V [L [F T]]]]].
  exists (_show text duration is_warning m').
  rewrite (mainloop_fire f t _ _ _ m Hq Hd). cbn [run_callback].
  fold m'. repeat split; auto.
  - rewrite N. subst m'. cbn [now set_now]. lia.
  - rewrite T. subst m'. cbn [now timers set_now set_timers].
    now rewrite Z.max_r by lia.
Qed.

Lemma fire_hide_with_click_through (f : nat) (t due : Z)
  (q : list (Z * callback)) (m : AnswerModal) :
  root m = true ->
  timers m = (due, HideWithClickThrough) :: q ->
  now m <= due -> due <= t ->
  exists s,
    mainloop_fuel (S f) t m = mainloop_fuel f t s /\
    root s = true /\ now s = due /\ viewable s = viewable m /\
    label_text s = label_text m /\ label_fg s = label_fg m /\
    timers s = insert_timer (due + 0, Hide) q.
Proof.
  intros Hr Hq Hn Hd.
  set (m' := set_now (Z.max (now m) due) (set_timers q m)).
  exists (after 0 Hide m').
  rewrite (mainloop_fire f t _ _ _ m Hq Hd). cbn [run_callback].
  fold m'. unfold _hide_with_click_through.
  change (root m') with (root m). rewrite Hr.
  repeat split; auto.
  - subst m'. cbn [now after set_now set_timers]. lia.
  - subst m'. unfold after. cbn [now timers set_now set_timers].
    now rewrite Z.max_r by lia.
Qed.

Lemma fire_hide (f : nat) (t due : Z) (q : list (Z * callback))
  (m : AnswerModal) :
  root m = true ->
  timers m = (due, Hide) :: q ->
  now m <= due -> due <= t ->
  exists s,
    mainloop_fuel (S f) t m = mainloop_fuel f t s /\
    root s = true /\ now s = due /\ viewable s = false /\
    label_text s = label_text m /\ label_fg s = label_fg m /\
    timers s = q.
Proof.
  intros Hr Hq Hn Hd.
  set (m' := set_now (Z.max (now m) due) (set_timers q m)).
  assert (Hr' : root m' = true) by exact Hr.
  destruct (hide_leaves m' Hr') as [R [N [V [L [F T]]]]].
  exists (_hide m').
  rewrite (mainloop_fire f t _ _ _ m Hq Hd). cbn [run_callback].
  fold m'. repeat split; auto.
  rewrite N. subst m'. cbn [now set_now]. lia.
Qed.

(** X19.  A dismissal that is pending when a later show arrives is not
    cancelled.  After a show at the time [t0] for [d1] seconds and a
    second show at [t1], before the first has been dismissed and due to
    last beyond it, the window carries the second text but is withdrawn
    at [t0 + d1 * 1000], the time set by the first call; the second
    dismissal is then still pending. *)
Theorem pending_dismissal_cuts_later_show (text1 text2 : string)
  (d1 d2 : Z) (w1 w2 : bool) (m : AnswerModal) (t1 : Z)
  (Hroot : root m = true)
  (Hidle : timers m = [])
  (H1 : now m <= t1 < now m + d1 * 1000)
  (H2 : now m + d1 * 1000 < t1 + d2 * 1000) :
  let m1 := value_of (show_answer text1 d1 w1 m) in
  let m2 := value_of (show_answer text2 d2 w2 (mainloop_until t1 m1)) in
  let then_ := mainloop_until (now m + d1 * 1000) m2 in
  label_text then_ = text2 /\
  viewable then_ = false /\
  timers then_ = [(t1 + d2 * 1000, HideWithClickThrough)].
Proof.
  intros m1 m2 then_.
  assert (Hthen : then_ = mainloop_until (now m + d1 * 1000) m2)
    by reflexivity.
  clearbody then_. subst m2 m1.
  rewrite (show_answer_ready _ _ _ _ Hroot) in Hthen.
  unfold value_of at 2 in Hthen. cbn [fst] in Hthen.
  set (a1 := after 0 (Show text1 d1 w1) m) in Hthen.
  assert (Hqa : timers a1 = [(now m + 0, Show text1 d1 w1)]).
  { subst a1. unfold after. cbn [timers set_timers]. now rewrite Hidle. }
  unfold mainloop_until at 2 in Hthen. rewrite Hqa in Hthen.
  cbn [pending_work fold_right weight snd Nat.add] in Hthen.
  assert (Hna : now a1 <= now m + 0) by (change (now a1) with (now m); lia).
  assert (Hta : now m + 0 <= t1) by lia.
  destruct (fire_show 2 t1 _ text1 d1 w1 [] a1 Hroot Hqa Hna Hta)
    as [s1 [E1 [R1 [N1 [V1 [L1 [F1 T1]]]]]]].
  rewrite E1 in Hthen. cbn [insert_timer] in T1.
  rewrite (mainloop_wait 2 t1 _ _ _ s1 T1) in Hthen by lia.
  set (b0 := set_now (Z.max (now s1) t1) s1) in Hthen.
  assert (Rb : root b0 = true) by exact R1.
  assert (Nb : now b0 = t1) by (subst b0; cbn [now set_now]; lia).
  rewrite (show_answer_ready _ _ _ _ Rb) in Hthen.
  unfold value_of in Hthen. cbn [fst] in Hthen.
  set (b1 := after 0 (Show text2 d2 w2) b0) in Hthen.
  assert (Hqb : timers b1 = [(t1 + 0, Show text2 d2 w2);
                            (now m + 0 + d1 * 1000, HideWithClickThrough)]).
  { subst b1. unfold after. cbn [timers set_timers]. rewrite Nb.
    change (timers b0) with (timers s1). rewrite T1. cbn [insert_timer fst].
    now destruct (Z.ltb_spec (t1 + 0) (now m + 0 + d1 * 1000)); [|lia]. }
  unfold mainloop_until in Hthen. rewrite Hqb in Hthen.
  cbn [pending_work fold_right weight snd Nat.add] in Hthen.
  assert (Hnb : now b1 <= t1 + 0) by (change (now b1) with (now b0); lia).
  assert (Htb : t1 + 0 <= now m + d1 * 1000) by lia.
  destruct (fire_show 4 (now m + d1 * 1000) _ text2 d2 w2 _ b1 Rb Hqb
              Hnb Htb)
    as [s2 [E2 [R2 [N2 [V2 [L2 [F2 T2]]]]]]].
  rewrite E2 in Hthen. cbn [insert_timer fst] in T2.
  destruct (Z.ltb_spec (t1 + 0 + d2 * 1000) (now m + 0 + d1 * 1000))
    as [Hbad|_] in T2; [lia|].
  assert (Hn2 : now s2 <= now m + 0 + d1 * 1000) by lia.
  assert (Ht2 : now m + 0 + d1 * 1000 <= now m + d1 * 1000) by lia.
  destruct (fire_hide_with_click_through 3 (now m + d1 * 1000) _ _ s2 R2 T2
              Hn2 Ht2)
    as [s3 [E3 [R3 [N3 [V3 [L3 [F3 T3]]]]]]].
  rewrite E3 in Hthen. cbn [insert_timer fst] in T3.
  destruct (Z.ltb_spec (now m + 0 + d1 * 1000 + 0) (t1 + 0 + d2 * 1000))
    as [_|Hbad] in T3; [|lia].
  assert (Hn3 : now s3 <= now m + 0 + d1 * 1000 + 0) by lia.
  assert (Ht3 : now m + 0 + d1 * 1000 + 0 <= now m + d1 * 1000) by lia.
  destruct (fire_hide 2 (now m + d1 * 1000) _ _ s3 R3 T3 Hn3 Ht3)
    as [s4 [E4 [R4 [N4 [V4 [L4 [F4 T4]]]]]]].
  rewrite E4 in Hthen.
  rewrite (mainloop_wait 2 (now m + d1 * 1000) _ _ _ s4 T4) in Hthen by lia.
  subst then_. cbn [label_text viewable timers set_now].
  rewrite L4, L3, L2, V4, T4. repeat split.
  do 2 f_equal. lia.
Qed.

Lemma pending_dismissal_witness :
  let m := new_modal 0 1312 1080 in
  let m1 := value_of (show_answer "A" 5 false m) in
  let m2 := value_of (show_answer "B" 5 false (mainloop_until 4000 m1)) in
  let then_ := mainloop_until (now m + 5 * 1000) m2 in
  label_text then_ = "B" /\
  viewable then_ = false /\
  timers then_ = [(4000 + 5 * 1000, HideWithClickThrough)].
Proof.
  intros m.
  apply (pending_dismissal_cuts_later_show "A" "B" 5 5 false false m 4000);
    try reflexivity; cbn; lia.
Defined.

(** X20.  [hide] withdraws a shown window for good: called while a
    show is on screen, it takes the window off screen, and the window
    stays off screen at every later time, also when the dismissal that
    the show had armed fires; the label keeps the text. *)
Theorem hide_withdraws_for_good (text : string) (duration : Z)
  (is_warning : bool) (m : AnswerModal) (t1 t : Z)
  (Hroot : root m = true)
  (Hidle : timers m = [])
  (H1 : now m <= t1 < now m + duration * 1000)
  (Ht : t1 <= t) :
  let shown :=
    mainloop_until t1 (value_of (show_answer text duration is_warning m)) in
  let hidden := mainloop_until t (hide shown) in
  viewable shown = true /\ viewable hidden = false /\
  label_text hidden = text.
Proof.
  intros shown hidden.
  assert (Hshown : shown = mainloop_until t1
            (value_of (show_answer text duration is_warning m)))
    by reflexivity.
  assert (Hhidden : hidden = mainloop_until t (hide shown)) by reflexivity.
  clearbody hidden. clearbody shown.
  rewrite (show_answer_ready _ _ _ _ Hroot) in Hshown.
  unfold value_of in Hshown. cbn [fst] in Hshown.
  set (a1 := after 0 (Show text duration is_warning) m) in Hshown.
  assert (Hqa : timers a1 = [(now m + 0, Show text duration is_warning)]).
  { subst a1. unfold after. cbn [timers set_timers]. now rewrite Hidle. }
  unfold mainloop_until in Hshown. rewrite Hqa in Hshown.
  cbn [pending_work fold_right weight snd Nat.add] in Hshown.
  assert (Hna : now a1 <= now m + 0) by (change (now a1) with (now m); lia).
  assert (Hta : now m + 0 <= t1) by lia.
  destruct (fire_show 2 t1 _ text duration is_warning [] a1 Hroot Hqa
              Hna Hta)
    as [s1 [E1 [R1 [N1 [V1 [L1 [F1 T1]]]]]]].
  rewrite E1 in Hshown. cbn [insert_timer] in T1.
  rewrite (mainloop_wait 2 t1 _ _ _ s1 T1) in Hshown by lia.
  assert (Rs : root shown = true) by (subst shown; exact R1).
  assert (Ns : now shown = t1)
    by (subst shown; cbn [now set_now]; lia).
  assert (Ts : timers shown
               = [(now m + 0 + duration * 1000, HideWithClickThrough)])
    by (subst shown; exact T1).
  assert (Ls : label_text shown = text) by (subst shown; exact L1).
  assert (Vs : viewable shown = true) by (subst shown; exact V1).
  clear Hshown.
  unfold hide, _hide_with_click_through in Hhidden. rewrite Rs in Hhidden.
  set (h1 := after 0 Hide shown) in Hhidden.
  assert (Hqh : timers h1
                = [(t1 + 0, Hide);
                   (now m + 0 + duration * 1000, HideWithClickThrough)]).
  { subst h1. unfold after. cbn [timers set_timers]. rewrite Ns, Ts.
    cbn [insert_timer fst].
    now destruct (Z.ltb_spec (t1 + 0) (now m + 0 + duration * 1000));
      [|lia]. }
  assert (Rh : root h1 = true) by exact Rs.
  assert (Hnh : now h1 <= t1 + 0) by (change (now h1) with (now shown); lia).
  assert (Hth : t1 + 0 <= t) by lia.
  unfold mainloop_until in Hhidden. rewrite Hqh in Hhidden.
  cbn [pending_work fold_right weight snd Nat.add] in Hhidden.
  destruct (fire_hide 2 t _ _ h1 Rh Hqh Hnh Hth)
    as [s2 [E2 [R2 [N2 [V2 [L2 [F2 T2]]]]]]].
  rewrite E2 in Hhidden. change (label_text h1) with (label_text shown) in L2.
  split; [exact Vs|].
  destruct (Z.lt_ge_cases t (now m + 0 + duration * 1000)) as [Hlt|Hge].
  - rewrite (mainloop_wait 2 t _ _ _ s2 T2 Hlt) in Hhidden.
    subst hidden. cbn [viewable label_text set_now].
    now rewrite V2, L2, Ls.
  - assert (Hn2 : now s2 <= now m + 0 + duration * 1000) by lia.
    destruct (fire_hide_with_click_through 1 t _ _ s2 R2 T2 Hn2 Hge)
      as [s3 [E3 [R3 [N3 [V3 [L3 [F3 T3]]]]]]].
    rewrite E3 in Hhidden. cbn [insert_timer] in T3.
    assert (Hn3 : now s3 <= now m + 0 + duration * 1000 + 0) by lia.
    assert (Ht3 : now m + 0 + duration * 1000 + 0 <= t) by lia.
    destruct (fire_hide 0 t _ _ s3 R3 T3 Hn3 Ht3)
      as [s4 [E4 [R4 [N4 [V4 [L4 [F4 T4]]]]]]].
    rewrite E4 in Hhidden. cbn [mainloop_fuel] in Hhidden.
    subst hidden. cbn [viewable label_text set_now].
    now rewrite V4, L4, L3, L2, Ls.
Qed.

Lemma hide_withdraws_witness :
  let m := new_modal 0 1312 1080 in
  let shown := mainloop_until 2000 (value_of (show_answer "C" 5 false m)) in
  let hidden := mainloop_until 9000 (hide shown) in
  viewable shown = true /\ viewable hidden = false /\
  label_text hidden = "C".
Proof.
  intros m.
  apply (hide_withdraws_for_good "C" 5 false m 2000 9000);
    try reflexivity; cbn; lia.
Defined.

End OverlayExtras.
